(** * Ads SDK: the offline-first content cache of [services/adsService.ts]

    A shallow embedding of the service module and the properties of its
    cache-and-refresh strategy.  Module-level [let] variables, the
    persistent key-value store, the console and the in-flight background
    requests form an explicit [World]; what the host platform does during
    one operation (storage faults, the clock, the remote endpoint) is a
    [Platform].  Asynchronous functions are computations in a state and
    exception monad whose outcome is a settled promise. *)

From Stdlib Require Import ZArith String Ascii List Lia.
From Stdlib Require Import Decimal DecimalString DecimalPos DecimalZ.
From Stdlib Require Import QArith Qround.
From stdpp Require Import base option gmap strings list.

Local Open Scope string_scope.
Local Open Scope Z_scope.

(** ** Types ([types/index.ts]) *)

(** [AdConfig['accentColor']] *)
Inductive AccentColor := blue | green | purple | orange | pink.

(** What a field filled from an unguarded table lookup holds at run time:
    a value of the declared type, or the member of [Object.prototype] of
    the given name (a function, or for [__proto__] the prototype object),
    which the lookup returns for a key that names one. *)
Inductive Looked (A : Type) :=
| Plain (a : A)
| FromPrototype (name : string).
Arguments Plain {A} a.
Arguments FromPrototype {A} name.

Module Ad.
(** [AdConfig]; [features] is an optional property.  [icon] and
    [accentColor] are declared as a string and as one of the five colours;
    [transformService] fills them from table lookups. *)
Record AdConfig := {
  id : string;
  title : string;
  tagline : string;
  description : string;
  ctaText : string;
  ctaUrl : string;
  icon : Looked string;
  accentColor : Looked AccentColor;
  features : option (list string)
}.
End Ad.
Abbreviation AdConfig := Ad.AdConfig.

(** [AdsSDKConfig]: every field is optional. *)
Record AdsSDKConfig := {
  apiUrl : option string;
  intakeBaseUrl : option string;
  cacheDuration : option Z
}.

Module Service.
(** [APIServiceConfig].  The declaration makes [features] mandatory, but
    the transformer guards it with [??], so an absent list is part of
    the inputs the code handles. *)
Record APIServiceConfig := {
  id : string;
  title : string;
  tagline : string;
  description : string;
  features : option (list string);
  primaryCtaLabel : string;
  primaryCtaId : string;
  intakeUrl : string;
  accent : string
}.
End Service.
Abbreviation APIServiceConfig := Service.APIServiceConfig.

(** [ContentPayload]; [services] is guarded with [??] in the fetcher. *)
Record ContentPayload := {
  version : string;
  generatedAt : string;
  services : option (list APIServiceConfig)
}.

(** ** JavaScript helpers used by the module *)

(** [a ?? b] *)
Definition nullish {A} (a : option A) (b : A) : A :=
  match a with Some x => x | None => b end.

(** [a || b] for a table lookup whose hits are all truthy. *)
Definition or_else {A} (a : option A) (b : A) : A :=
  match a with Some x => x | None => b end.

(** [s.startsWith(p)] *)
Definition startsWith (s p : string) : bool := String.prefix p s.

(** [s.replace(/\/$/, '')]: drops one slash when it is the last character. *)
Fixpoint replace_trailing_slash (s : string) : string :=
  match s with
  | EmptyString => EmptyString
  | String c EmptyString => if Ascii.eqb c "/" then EmptyString else s
  | String c rest => String c (replace_trailing_slash rest)
  end.

(** Truthiness of a string: the empty string is falsy. *)
Definition truthy (s : string) : bool :=
  match s with EmptyString => false | _ => true end.

Definition is_digit (c : ascii) : bool :=
  let n := nat_of_ascii c in (Nat.leb 48 n && Nat.leb n 57)%bool.

(** Strings are texts in UTF-8: a character outside the ASCII range is the
    sequence of its bytes. *)

(** The white space and line terminators [parseInt] skips, in the ASCII
    range: tab, line feed, vertical tab, form feed, carriage return,
    space. *)
Definition is_space (c : ascii) : bool :=
  let n := nat_of_ascii c in
  ((Nat.leb 9 n && Nat.leb n 13) || Nat.eqb n 32)%bool.

(** The first byte of the characters below. *)
Definition is_space_lead (c : ascii) : bool :=
  let n := nat_of_ascii c in
  (Nat.eqb n 194 || Nat.eqb n 225 || Nat.eqb n 226 || Nat.eqb n 227
   || Nat.eqb n 239)%bool.

(** U+00A0, the no-break space. *)
Definition is_space2 (c1 c2 : ascii) : bool :=
  (Nat.eqb (nat_of_ascii c1) 194 && Nat.eqb (nat_of_ascii c2) 160)%bool.

(** U+1680, U+2000 to U+200A, U+2028, U+2029, U+202F, U+205F, U+3000 and
    U+FEFF: the other space separators, the line and paragraph separators
    and the byte order mark. *)
Definition is_space3 (c1 c2 c3 : ascii) : bool :=
  let n1 := nat_of_ascii c1 in
  let n2 := nat_of_ascii c2 in
  let n3 := nat_of_ascii c3 in
  ((Nat.eqb n1 225 && Nat.eqb n2 154 && Nat.eqb n3 128)
   || (Nat.eqb n1 226 && Nat.eqb n2 128
       && ((Nat.leb 128 n3 && Nat.leb n3 138)
           || Nat.eqb n3 168 || Nat.eqb n3 169 || Nat.eqb n3 175))
   || (Nat.eqb n1 226 && Nat.eqb n2 129 && Nat.eqb n3 159)
   || (Nat.eqb n1 227 && Nat.eqb n2 128 && Nat.eqb n3 128)
   || (Nat.eqb n1 239 && Nat.eqb n2 187 && Nat.eqb n3 191))%bool.

Fixpoint skip_spaces (s : string) : string :=
  match s with
  | String c1 rest1 =>
      if is_space c1 then skip_spaces rest1
      else if negb (is_space_lead c1) then s
      else
        match rest1 with
        | String c2 rest2 =>
            if is_space2 c1 c2 then skip_spaces rest2
            else
              match rest2 with
              | String c3 rest3 =>
                  if is_space3 c1 c2 c3 then skip_spaces rest3 else s
              | EmptyString => s
              end
        | EmptyString => s
        end
  | EmptyString => EmptyString
  end.

(** The longest prefix of decimal digits. *)
Fixpoint digit_prefix (s : string) : string :=
  match s with
  | String c rest => if is_digit c then String c (digit_prefix rest) else EmptyString
  | EmptyString => EmptyString
  end.

Definition digits_value (s : string) : option Z :=
  match digit_prefix s with
  | EmptyString => None
  | ds => Z.of_uint <$> NilEmpty.uint_of_string ds
  end.

(** [parseInt(s, 10)]: leading white space, an optional sign, then the
    longest run of decimal digits; [None] is [NaN].  Numbers are exact
    integers here: the rounding of values beyond 2^53 is not modelled. *)
Definition parseInt (s : string) : option Z :=
  match skip_spaces s with
  | String "-" rest => Z.opp <$> digits_value rest
  | String "+" rest => digits_value rest
  | s' => digits_value s'
  end.

(** [n.toString()] for an integral number. *)
Definition Number_toString (n : Z) : string :=
  NilZero.string_of_int (Z.to_int n).

(** ** Module-level configuration *)

Definition DEFAULT_API_URL : string := "https://davidjgrimsley.com/api/content".
Definition DEFAULT_INTAKE_BASE_URL : string := "https://davidjgrimsley.com".
Definition CACHE_KEY : string := "dj_ads_cache".
Definition CACHE_TIMESTAMP_KEY : string := "dj_ads_cache_timestamp".
Definition DEFAULT_CACHE_DURATION : Z := 1000 * 60 * 60.

(** ** Transformation tables

    The two tables are object literals used as maps from strings.  The
    maps below hold their own properties; [table_get] is the property read
    [table[key]], which also finds the members every object literal
    inherits from [Object.prototype]. *)

Definition iconMap : gmap string string :=
  <["app-development" := "phone-portrait-outline"]>
  (<["website-building" := "globe-outline"]>
  (<["game-development" := "game-controller-outline"]>
  (<["tutoring" := "school-outline"]>
  (<["online-presence" := "trending-up-outline"]> ∅)))).

Definition colorMap : gmap string AccentColor :=
  <["#0E668B" := blue]>
  (<["#1E9E70" := green]>
  (<["#723B80" := purple]>
  (<["#EEA444" := orange]>
  (<["#D63C83" := pink]> ∅)))).

(** The property names an object literal inherits from [Object.prototype],
    as the language defines them. *)
Definition Object_prototype_members : list string :=
  [ "constructor"; "hasOwnProperty"; "isPrototypeOf"; "propertyIsEnumerable";
    "toLocaleString"; "toString"; "valueOf"; "__proto__";
    "__defineGetter__"; "__defineSetter__"; "__lookupGetter__"; "__lookupSetter__" ].

(** [table[key]]: the own property, else the inherited member, else
    [undefined].  Every hit is truthy. *)
Definition table_get {A} (table : gmap string A) (key : string) : option (Looked A) :=
  match table !! key with
  | Some a => Some (Plain a)
  | None =>
      if bool_decide (key ∈ Object_prototype_members)
      then Some (FromPrototype key)
      else None
  end.

(** [fallbackAds] is a module-level constant: its template literals are
    evaluated once, when the module is loaded, and at that moment
    [INTAKE_BASE_URL] holds its initial value. *)
Definition fallbackAds : list AdConfig :=
  [ {| Ad.id := "creative-strategy";
       Ad.title := "Creative Strategy Sprint";
       Ad.tagline := "Clarify your direction and ship faster.";
       Ad.description := "A focused 1:1 sprint to align your creative goals, audience, and execution plan. Perfect for creators launching a new project or pivoting into a new niche.";
       Ad.features := Some [ "Roadmap for your next 90 days";
                             "Positioning & audience alignment";
                             "Content and distribution checklist" ];
       Ad.ctaText := "Book a Strategy Sprint";
       Ad.ctaUrl := DEFAULT_INTAKE_BASE_URL +:+ "/creative-strategy";
       Ad.icon := Plain "sparkles";
       Ad.accentColor := Plain purple |};
    {| Ad.id := "portfolio-review";
       Ad.title := "Portfolio Review";
       Ad.tagline := "Make your work stand out with clarity.";
       Ad.description := "Get targeted, practical feedback on your portfolio, project pages, and case studies. Walk away with fixes you can implement immediately.";
       Ad.features := Some [ "Portfolio positioning feedback";
                             "Case study structure & flow";
                             "Actionable next steps" ];
       Ad.ctaText := "Schedule a Review";
       Ad.ctaUrl := DEFAULT_INTAKE_BASE_URL +:+ "/portfolio-review";
       Ad.icon := Plain "layers";
       Ad.accentColor := Plain blue |};
    {| Ad.id := "brand-identity";
       Ad.title := "Brand Identity Boost";
       Ad.tagline := "A cohesive look that feels premium.";
       Ad.description := "Refresh your visuals and message with a lightweight brand identity package tailored to creative teams and indie studios.";
       Ad.features := Some [ "Palette + typography direction";
                             "Moodboard and brand voice";
                             "Quick-start asset kit" ];
       Ad.ctaText := "Explore Branding";
       Ad.ctaUrl := DEFAULT_INTAKE_BASE_URL +:+ "/brand-identity";
       Ad.icon := Plain "color-palette";
       Ad.accentColor := Plain orange |};
    {| Ad.id := "launch-support";
       Ad.title := "Launch Support";
       Ad.tagline := "Build hype and land your first fans.";
       Ad.description := "From pre-launch planning to post-launch momentum, get a proven playbook and hands-on support for your next release.";
       Ad.features := Some [ "Launch checklist & timeline";
                             "Landing page feedback";
                             "Post-launch growth plan" ];
       Ad.ctaText := "Plan a Launch";
       Ad.ctaUrl := DEFAULT_INTAKE_BASE_URL +:+ "/launch-support";
       Ad.icon := Plain "rocket";
       Ad.accentColor := Plain green |} ].

(** ** The world the module runs in *)

(** What can be thrown or make a promise reject. *)
Inductive Exn :=
| NetworkError                (* [fetch] rejects: no transport *)
| ApiError (status : Z)       (* [new Error(`API error: ${response.status}`)] *)
| SyntaxError                 (* [response.json()] or [JSON.parse] on malformed text *)
| TypeError                   (* a body that is JSON but has no usable [services] *)
| StorageError (key : string) (* the platform store throws *).

(** A settled promise. *)
Inductive Settled (A : Type) :=
| Fulfilled (a : A)
| Rejected (e : Exn).
Arguments Fulfilled {A} a.
Arguments Rejected {A} e.

Inductive ResponseBody :=
| MalformedBody
| IllTypedBody
| JsonBody (payload : ContentPayload).

Record Response := { status : Z; body : ResponseBody }.

(** [response.ok]: the status is in the range 200-299. *)
Definition ok (r : Response) : bool := ((200 <=? status r) && (status r <=? 299))%bool.

Inductive FetchOutcome :=
| FetchRejects
| FetchResponds (r : Response).

(** A fire-and-forget refresh whose request is in flight. *)
Inductive Task := BackgroundRefresh (o : FetchOutcome).

Inductive LogEntry :=
| Warn (msg : string)
| Error (msg : string) (e : Exn).

(** The three [let] variables of the module, the persistent store, and
    the observable traces: clock reads, requests, spawned tasks, console. *)
Record World := {
  API_URL : string;
  INTAKE_BASE_URL : string;
  CACHE_DURATION : Z;
  store : gmap string string;
  ticks : nat;
  requests : list string;
  pending : list Task;
  console : list LogEntry
}.

(** The state of a freshly loaded module over a given store. *)
Definition module_loaded (s : gmap string string) : World :=
  {| API_URL := DEFAULT_API_URL;
     INTAKE_BASE_URL := DEFAULT_INTAKE_BASE_URL;
     CACHE_DURATION := DEFAULT_CACHE_DURATION;
     store := s; ticks := 0; requests := []; pending := []; console := [] |}.

Definition set_API_URL (v : string) (w : World) : World :=
  {| API_URL := v; INTAKE_BASE_URL := INTAKE_BASE_URL w;
     CACHE_DURATION := CACHE_DURATION w; store := store w; ticks := ticks w;
     requests := requests w; pending := pending w; console := console w |}.

Definition set_INTAKE_BASE_URL (v : string) (w : World) : World :=
  {| API_URL := API_URL w; INTAKE_BASE_URL := v;
     CACHE_DURATION := CACHE_DURATION w; store := store w; ticks := ticks w;
     requests := requests w; pending := pending w; console := console w |}.

Definition set_CACHE_DURATION (v : Z) (w : World) : World :=
  {| API_URL := API_URL w; INTAKE_BASE_URL := INTAKE_BASE_URL w;
     CACHE_DURATION := v; store := store w; ticks := ticks w;
     requests := requests w; pending := pending w; console := console w |}.

Definition set_store (v : gmap string string) (w : World) : World :=
  {| API_URL := API_URL w; INTAKE_BASE_URL := INTAKE_BASE_URL w;
     CACHE_DURATION := CACHE_DURATION w; store := v; ticks := ticks w;
     requests := requests w; pending := pending w; console := console w |}.

Definition set_ticks (v : nat) (w : World) : World :=
  {| API_URL := API_URL w; INTAKE_BASE_URL := INTAKE_BASE_URL w;
     CACHE_DURATION := CACHE_DURATION w; store := store w; ticks := v;
     requests := requests w; pending := pending w; console := console w |}.

Definition set_requests (v : list string) (w : World) : World :=
  {| API_URL := API_URL w; INTAKE_BASE_URL := INTAKE_BASE_URL w;
     CACHE_DURATION := CACHE_DURATION w; store := store w; ticks := ticks w;
     requests := v; pending := pending w; console := console w |}.

Definition set_pending (v : list Task) (w : World) : World :=
  {| API_URL := API_URL w; INTAKE_BASE_URL := INTAKE_BASE_URL w;
     CACHE_DURATION := CACHE_DURATION w; store := store w; ticks := ticks w;
     requests := requests w; pending := v; console := console w |}.

Definition set_console (v : list LogEntry) (w : World) : World :=
  {| API_URL := API_URL w; INTAKE_BASE_URL := INTAKE_BASE_URL w;
     CACHE_DURATION := CACHE_DURATION w; store := store w; ticks := ticks w;
     requests := requests w; pending := pending w; console := v |}.

(** What the host does while one operation runs: which store accesses
    throw, what the [n]-th clock read returns, what the endpoint answers. *)
Record Platform := {
  getItem_throws : string -> bool;
  setItem_throws : string -> bool;
  removeItem_throws : string -> bool;
  clock : nat -> Z;
  endpoint : string -> FetchOutcome
}.

(** ** Asynchronous computations *)

Definition Async (A : Type) : Type := Platform -> World -> Settled A * World.

#[global] Instance Async_ret : MRet Async :=
  fun A a _ w => (Fulfilled a, w).

#[global] Instance Async_bind : MBind Async :=
  fun A B k m p w =>
    match m p w with
    | (Fulfilled a, w') => k a p w'
    | (Rejected e, w') => (Rejected e, w')
    end.

Definition throw {A} (e : Exn) : Async A := fun _ w => (Rejected e, w).

(** [try { body } catch (error) { handler }] *)
Definition try_catch {A} (body : Async A) (handler : Exn -> Async A) : Async A :=
  fun p w =>
    match body p w with
    | (Fulfilled a, w') => (Fulfilled a, w')
    | (Rejected e, w') => handler e p w'
    end.

Definition read {A} (f : World -> A) : Async A := fun _ w => (Fulfilled (f w), w).
Definition update (f : World -> World) : Async unit := fun _ w => (Fulfilled tt, f w).

(** [console.warn(msg)], in synchronous code. *)
Definition console_warn (msg : string) (w : World) : World :=
  set_console (console w ++ [Warn msg]) w.
(** [console.error(msg, error)] *)
Definition console_error (msg : string) (e : Exn) : Async unit :=
  update (fun w => set_console (console w ++ [Error msg e]) w).

(** [Date.now()] *)
Definition Date_now : Async Z :=
  fun p w => (Fulfilled (clock p (ticks w)), set_ticks (S (ticks w)) w).

(** [fetch(url)]: the request is sent; the outcome is what the returned
    promise settles to. *)
Definition fetch (url : string) : Async FetchOutcome :=
  fun p w => (Fulfilled (endpoint p url), set_requests (requests w ++ [url]) w).

(** ** Storage abstraction *)

Module storage.
Definition getItem (key : string) : Async (option string) :=
  fun p w =>
    if getItem_throws p key then (Rejected (StorageError key), w)
    else (Fulfilled (store w !! key), w).

Definition setItem (key value : string) : Async unit :=
  fun p w =>
    if setItem_throws p key then (Rejected (StorageError key), w)
    else (Fulfilled tt, set_store (<[key := value]> (store w)) w).

Definition removeItem (key : string) : Async unit :=
  fun p w =>
    if removeItem_throws p key then (Rejected (StorageError key), w)
    else (Fulfilled tt, set_store (delete key (store w)) w).
End storage.

(** ** Initialisation *)

(** [initializeAdsSDK(config?)]: synchronous, only touches the three
    variables and the console. *)
Definition initializeAdsSDK (config : option AdsSDKConfig) (w : World) : World :=
  let w1 :=
    match config ≫= apiUrl with
    | Some url =>
        if truthy url then
          set_API_URL (replace_trailing_slash url)
            (if (negb (startsWith url "http://") && negb (startsWith url "https://"))%bool
             then console_warn "[AdsSDK] apiUrl should start with http:// or https://" w
             else w)
        else w
    | None => w
    end in
  let w2 :=
    match config ≫= intakeBaseUrl with
    | Some url =>
        if truthy url then
          set_INTAKE_BASE_URL (replace_trailing_slash url)
            (if (negb (startsWith url "http://") && negb (startsWith url "https://"))%bool
             then console_warn "[AdsSDK] intakeBaseUrl should start with http:// or https://" w1
             else w1)
        else w1
    | None => w1
    end in
  match config ≫= cacheDuration with
  | Some d =>
      if d <? 0
      then console_warn "[AdsSDK] cacheDuration should be positive" w2
      else set_CACHE_DURATION d w2
  | None => w2
  end.

(** ** Transformation logic *)

(** [transformService(service)]; [w] gives the value [INTAKE_BASE_URL]
    has when the function runs. *)
Definition transformService (w : World) (service : APIServiceConfig) : AdConfig :=
  let accentColor := or_else (table_get colorMap (Service.accent service)) (Plain blue) in
  let icon :=
    or_else (table_get iconMap (Service.id service))
            (Plain "information-circle-outline") in
  let ctaUrl := INTAKE_BASE_URL w +:+ Service.intakeUrl service in
  {| Ad.id := Service.id service;
     Ad.title := Service.title service;
     Ad.tagline := Service.tagline service;
     Ad.description := Service.description service;
     Ad.ctaText := Service.primaryCtaLabel service;
     Ad.ctaUrl := ctaUrl;
     Ad.icon := icon;
     Ad.accentColor := accentColor;
     Ad.features := Some (nullish (Service.features service) []) |}.

(** ** The platform's JSON codec for the cache payload *)

(** What [JSON.parse(text) as AdConfig[]] can do on a stored payload:
    throw, yield a falsy value ([null], [false], [0], the empty string),
    or yield a list of ads.  A text whose parse is a truthy value of
    another shape is outside this type, as it is outside the declared
    type of [getCachedAds]; the properties of the queries that look into
    the list assume [typed_cache]. *)
Inductive Parsed :=
| ParseThrows
| ParsedFalsy
| ParsedAds (ads : list AdConfig).

(** [JSON.stringify] on a list of ads and [JSON.parse] on a stored text are
    built-ins of the host; the module is verified for any such pair. *)
Class JSON := {
  JSON_stringify : list AdConfig -> string;
  JSON_parse : string -> Parsed
}.

Section AdsService.
Context `{!JSON}.

(** ** Cache management *)

(** [getCachedAds()].  A falsy parsed value is returned as it is by the
    source and then fails both [cachedAds &&] tests of [getAllAds]; it is
    [None] here, like [null]. *)
Definition getCachedAds : Async (option (list AdConfig)) :=
  try_catch
    (cachedData ← storage.getItem CACHE_KEY;
     match cachedData with
     | None => mret None
     | Some text =>
         if negb (truthy text) then mret None
         else match JSON_parse text with
              | ParseThrows => throw SyntaxError
              | ParsedFalsy => mret None
              | ParsedAds ads => mret (Some ads)
              end
     end)
    (fun error => console_error "Error reading cache:" error;; mret None).

(** [setCachedAds(ads)] *)
Definition setCachedAds (ads : list AdConfig) : Async unit :=
  try_catch
    (storage.setItem CACHE_KEY (JSON_stringify ads);;
     now ← Date_now;
     storage.setItem CACHE_TIMESTAMP_KEY (Number_toString now))
    (fun error => console_error "Error writing cache:" error).

(** [isCacheExpired()]; a comparison with [NaN] is false. *)
Definition isCacheExpired : Async bool :=
  try_catch
    (timestamp ← storage.getItem CACHE_TIMESTAMP_KEY;
     match timestamp with
     | None => mret true
     | Some text =>
         if negb (truthy text) then mret true
         else
           now ← Date_now;
           duration ← read CACHE_DURATION;
           match parseInt text with
           | Some t => mret (duration <? now - t)
           | None => mret false
           end
     end)
    (fun _ => mret true).

(** ** API fetching *)

(** The synchronous prefix of [fetchAdsFromAPI()]: [fetch(API_URL)] is
    called with the current [API_URL] and the request is on its way. *)
Definition fetch_issue : Async FetchOutcome :=
  url ← read API_URL;
  fetch url.

(** The rest of [fetchAdsFromAPI()], run once the request has settled. *)
Definition fetch_resume (o : FetchOutcome) : Async (list AdConfig) :=
  match o with
  | FetchRejects => throw NetworkError
  | FetchResponds response =>
      if negb (ok response) then throw (ApiError (status response))
      else match body response with
           | MalformedBody => throw SyntaxError
           | IllTypedBody => throw TypeError
           | JsonBody payload =>
               w ← read (fun w => w);
               mret (map (transformService w) (nullish (services payload) []))
           end
  end.

(** [fetchAdsFromAPI()] *)
Definition fetchAdsFromAPI : Async (list AdConfig) :=
  o ← fetch_issue; fetch_resume o.

(** ** Public API *)

(** [fetchAdsFromAPI().then(setCachedAds).catch(...)], from the moment
    the request settles. *)
Definition run_task (t : Task) : Async unit :=
  match t with
  | BackgroundRefresh o =>
      try_catch
        (ads ← fetch_resume o; setCachedAds ads)
        (fun error => console_error "Background refresh failed:" error)
  end.

(** [getAllAds()].  In the stale branch the refresh is not awaited: the
    request is issued, the rest is left as a pending task and the cached
    list is returned. *)
Definition getAllAds : Async (list AdConfig) :=
  cachedAds ← getCachedAds;
  cacheExpired ← isCacheExpired;
  match cachedAds with
  | Some ads =>
      if negb cacheExpired then mret ads
      else
        o ← fetch_issue;
        update (fun w => set_pending (pending w ++ [BackgroundRefresh o]) w);;
        mret ads
  | None =>
      try_catch
        (freshAds ← fetchAdsFromAPI;
         setCachedAds freshAds;;
         mret (if Nat.eqb (length freshAds) 0 then fallbackAds else freshAds))
        (fun error => console_error "Failed to fetch ads:" error;; mret fallbackAds)
  end.

(** [refreshAds()] *)
Definition refreshAds : Async (list AdConfig) :=
  freshAds ← fetchAdsFromAPI;
  setCachedAds freshAds;;
  mret freshAds.

(** [getAdById(id)]; [None] is [undefined]. *)
Definition getAdById (id : string) : Async (option AdConfig) :=
  ads ← getAllAds;
  mret (find (fun ad => String.eqb (Ad.id ad) id) ads).

(** [clearAdsCache()] *)
Definition clearAdsCache : Async unit :=
  storage.removeItem CACHE_KEY;;
  storage.removeItem CACHE_TIMESTAMP_KEY.

(** The event loop delivers the oldest pending background task. *)
Definition deliver : Async unit :=
  ts ← read pending;
  match ts with
  | [] => mret tt
  | t :: rest => update (set_pending rest);; run_task t
  end.

End AdsService.

(** ** A JSON codec for [AdConfig[]] documents

    An executable instance of the codec, used to run the module on
    concrete stores: [stringify] writes the text [JSON.stringify] writes
    for a list of ads built by [transformService]; [parse] reads JSON text
    and accepts falsy values and arrays of ad objects, rejecting every
    other text. *)
Module AdsJson.

Definition dquote : ascii := "034"%char.

#[warnings="-register-all"]
Inductive json :=
| JNull
| JBool (b : bool)
| JNumber (z : Z)
| JString (s : string)
| JArray (elements : list json)
| JObject (members : list (string * json)).

Definition hex_digit (n : nat) : ascii :=
  ascii_of_nat (if Nat.ltb n 10 then 48 + n else 87 + n).

Definition hex_value (c : ascii) : option nat :=
  let n := nat_of_ascii c in
  if (Nat.leb 48 n && Nat.leb n 57)%bool then Some (n - 48)%nat
  else if (Nat.leb 97 n && Nat.leb n 102)%bool then Some (n - 87)%nat
  else if (Nat.leb 65 n && Nat.leb n 70)%bool then Some (n - 55)%nat
  else None.

(** The body of a quoted string. *)
Fixpoint quote_body (s : string) : string :=
  match s with
  | EmptyString => EmptyString
  | String c rest =>
      let n := nat_of_ascii c in
      let tail := quote_body rest in
      if Ascii.eqb c dquote then String "\" (String dquote tail)
      else if Ascii.eqb c "\" then String "\" (String "\" tail)
      else if Nat.eqb n 8 then String "\" (String "b" tail)
      else if Nat.eqb n 9 then String "\" (String "t" tail)
      else if Nat.eqb n 10 then String "\" (String "n" tail)
      else if Nat.eqb n 12 then String "\" (String "f" tail)
      else if Nat.eqb n 13 then String "\" (String "r" tail)
      else if Nat.ltb n 32 then
        String "\" (String "u" (String "0" (String "0"
          (String (hex_digit (n / 16)) (String (hex_digit (n mod 16)) tail)))))
      else String c tail
  end.

Definition quote (s : string) : string :=
  String dquote (quote_body s +:+ String dquote EmptyString).

Definition join (sep : string) (parts : list string) : string :=
  match parts with
  | [] => EmptyString
  | x :: rest => fold_left (fun acc y => acc +:+ sep +:+ y) rest x
  end.

Definition accent_name (c : AccentColor) : string :=
  match c with
  | blue => "blue" | green => "green" | purple => "purple"
  | orange => "orange" | pink => "pink"
  end.

Definition accent_of_name (s : string) : option AccentColor :=
  if String.eqb s "blue" then Some blue
  else if String.eqb s "green" then Some green
  else if String.eqb s "purple" then Some purple
  else if String.eqb s "orange" then Some orange
  else if String.eqb s "pink" then Some pink
  else None.

Definition member (key value : string) : string := quote key +:+ ":" +:+ value.

(** A property filled from a lookup: a function-valued property is left
    out by [JSON.stringify], and the prototype object is written as an
    object without properties. *)
Definition looked_member {A} (key : string) (write : A -> string) (v : Looked A)
    : list string :=
  match v with
  | Plain a => [ member key (write a) ]
  | FromPrototype name =>
      if String.eqb name "__proto__" then [ member key "{}" ] else []
  end.

Definition stringify_ad (ad : AdConfig) : string :=
  "{" +:+
  join "," (
    [ member "id" (quote (Ad.id ad));
      member "title" (quote (Ad.title ad));
      member "tagline" (quote (Ad.tagline ad));
      member "description" (quote (Ad.description ad));
      member "ctaText" (quote (Ad.ctaText ad));
      member "ctaUrl" (quote (Ad.ctaUrl ad)) ]
    ++ looked_member "icon" quote (Ad.icon ad)
    ++ looked_member "accentColor" (fun c => quote (accent_name c)) (Ad.accentColor ad)
    ++ match Ad.features ad with
       | Some fs => [ member "features" ("[" +:+ join "," (map quote fs) +:+ "]") ]
       | None => []
       end)
  +:+ "}".

Definition stringify (ads : list AdConfig) : string :=
  "[" +:+ join "," (map stringify_ad ads) +:+ "]".

Definition is_ws (c : ascii) : bool :=
  let n := nat_of_ascii c in
  (Nat.eqb n 32 || Nat.eqb n 9 || Nat.eqb n 10 || Nat.eqb n 13)%bool.

Fixpoint skip_ws (s : string) : string :=
  match s with
  | String c rest => if is_ws c then skip_ws rest else s
  | EmptyString => EmptyString
  end.

(** Reads a string body up to the closing quote. *)
Fixpoint read_string (s : string) : option (string * string) :=
  match s with
  | EmptyString => None
  | String c rest =>
      if Ascii.eqb c dquote then Some (EmptyString, rest)
      else if Ascii.eqb c "\" then
        match rest with
        | String e rest' =>
            let plain (ch : ascii) :=
              '(body, after) ← read_string rest'; Some (String ch body, after) in
            if Ascii.eqb e dquote then plain dquote
            else if Ascii.eqb e "\" then plain "\"%char
            else if Ascii.eqb e "/" then plain "/"%char
            else if Ascii.eqb e "b" then plain (ascii_of_nat 8)
            else if Ascii.eqb e "t" then plain (ascii_of_nat 9)
            else if Ascii.eqb e "n" then plain (ascii_of_nat 10)
            else if Ascii.eqb e "f" then plain (ascii_of_nat 12)
            else if Ascii.eqb e "r" then plain (ascii_of_nat 13)
            else if Ascii.eqb e "u" then
              match rest' with
              | String "0" (String "0" (String h (String l rest''))) =>
                  hi ← hex_value h;
                  lo ← hex_value l;
                  '(body, after) ← read_string rest'';
                  Some (String (ascii_of_nat (16 * hi + lo)) body, after)
              | _ => None
              end
            else None
        | EmptyString => None
        end
      else if Nat.ltb (nat_of_ascii c) 32 then None
      else '(body, after) ← read_string rest; Some (String c body, after)
  end.

Definition drop_prefix (p s : string) : option string :=
  if String.prefix p s
  then Some (String.substring (String.length p) (String.length s - String.length p) s)
  else None.

Definition read_number (s : string) : option (json * string) :=
  let '(neg, s') := match s with String "-" r => (true, r) | _ => (false, s) end in
  let ds := digit_prefix s' in
  match ds with
  | EmptyString => None
  | _ =>
      n ← NilEmpty.uint_of_string ds;
      after ← drop_prefix ds s';
      Some (JNumber (if neg : bool then - Z.of_uint n else Z.of_uint n), after)
  end.

(** What the reader is in the middle of. *)
Inductive mode :=
| Value
| Elements (acc : list json)
| Members (acc : list (string * json)).

(** Recursive descent; [fuel] bounds the number of values and separators. *)
Fixpoint read (fuel : nat) (m : mode) (s : string) : option (json * string) :=
  match fuel with
  | O => None
  | S fuel =>
      let s := skip_ws s in
      match m with
      | Value =>
          match s with
          | String "n" _ => after ← drop_prefix "null" s; Some (JNull, after)
          | String "t" _ => after ← drop_prefix "true" s; Some (JBool true, after)
          | String "f" _ => after ← drop_prefix "false" s; Some (JBool false, after)
          | String "034"%char rest => '(str, after) ← read_string rest; Some (JString str, after)
          | String "[" rest =>
              match skip_ws rest with
              | String "]" after => Some (JArray [], after)
              | _ => read fuel (Elements []) rest
              end
          | String "{" rest =>
              match skip_ws rest with
              | String "}" after => Some (JObject [], after)
              | _ => read fuel (Members []) rest
              end
          | _ => read_number s
          end
      | Elements acc =>
          '(v, after) ← read fuel Value s;
          match skip_ws after with
          | String "," rest => read fuel (Elements (acc ++ [v])) rest
          | String "]" rest => Some (JArray (acc ++ [v]), rest)
          | _ => None
          end
      | Members acc =>
          match s with
          | String "034"%char rest =>
              '(key, after) ← read_string rest;
              match skip_ws after with
              | String ":" rest' =>
                  '(v, after') ← read fuel Value rest';
                  match skip_ws after' with
                  | String "," rest'' => read fuel (Members (acc ++ [(key, v)])) rest''
                  | String "}" rest'' => Some (JObject (acc ++ [(key, v)]), rest'')
                  | _ => None
                  end
              | _ => None
              end
          | _ => None
          end
      end
  end.

(** The whole text is one value. *)
Definition read_document (s : string) : option json :=
  '(v, after) ← read (S (String.length s)) Value s;
  match skip_ws after with
  | EmptyString => Some v
  | _ => None
  end.

(** A property of an object; a repeated key keeps its last value. *)
Definition property (key : string) (members : list (string * json)) : option json :=
  snd <$> find (fun kv => String.eqb (fst kv) key) (rev members).

Definition as_string (v : json) : option string :=
  match v with JString s => Some s | _ => None end.

Definition string_property (key : string) (members : list (string * json)) : option string :=
  property key members ≫= as_string.

Definition as_ad (v : json) : option AdConfig :=
  match v with
  | JObject ms =>
      id ← string_property "id" ms;
      title ← string_property "title" ms;
      tagline ← string_property "tagline" ms;
      description ← string_property "description" ms;
      ctaText ← string_property "ctaText" ms;
      ctaUrl ← string_property "ctaUrl" ms;
      icon ← string_property "icon" ms;
      accentColor ← string_property "accentColor" ms ≫= accent_of_name;
      features ←
        match property "features" ms with
        | None => Some None
        | Some (JArray fs) => Some <$> mapM as_string fs
        | Some _ => None
        end;
      Some {| Ad.id := id; Ad.title := title; Ad.tagline := tagline;
              Ad.description := description; Ad.ctaText := ctaText;
              Ad.ctaUrl := ctaUrl; Ad.icon := Plain icon;
              Ad.accentColor := Plain accentColor; Ad.features := features |}
  | _ => None
  end.

Definition parse (text : string) : Parsed :=
  match read_document text with
  | None => ParseThrows
  | Some JNull | Some (JBool false) | Some (JNumber 0) | Some (JString EmptyString) =>
      ParsedFalsy
  | Some (JArray elements) =>
      match mapM as_ad elements with
      | Some ads => ParsedAds ads
      | None => ParseThrows
      end
  | Some _ => ParseThrows
  end.

#[global] Instance codec : JSON :=
  {| JSON_stringify := stringify; JSON_parse := parse |}.

End AdsJson.

(** ** Vocabulary of the design: cache entries, cache states, remote answers *)

Section Vocabulary.
Context `{!JSON}.

(** The list held by the payload key, if it holds one. *)
Definition cached_list (s : gmap string string) : option (list AdConfig) :=
  match s !! CACHE_KEY with
  | Some text =>
      if truthy text then
        match JSON_parse text with
        | ParsedAds ads => Some ads
        | _ => None
        end
      else None
  | None => None
  end.

(** The age of the entry at time [now], if the timestamp key holds a number. *)
Definition cache_age (s : gmap string string) (now : Z) : option Z :=
  t ← s !! CACHE_TIMESTAMP_KEY ≫= parseInt; Some (now - t).

(** The three states of the design (absent: no entry; fresh: an entry
    whose age is at most the cache duration; stale: an entry whose age
    exceeds it), and the payload whose timestamp is missing or unreadable,
    which the design leaves outside them. *)
Inductive CacheState :=
| Absent
| Fresh (ads : list AdConfig)
| Stale (ads : list AdConfig)
| Untimed (ads : list AdConfig).

Definition cache_state (w : World) (now : Z) : CacheState :=
  match cached_list (store w) with
  | None => Absent
  | Some ads =>
      match cache_age (store w) now with
      | Some age => if age <=? CACHE_DURATION w then Fresh ads else Stale ads
      | None => Untimed ads
      end
  end.

(** The cached list as one operation sees it: a throwing read hides it. *)
Definition visible_cache (p : Platform) (w : World) : option (list AdConfig) :=
  if getItem_throws p CACHE_KEY then None else cached_list (store w).

(** The expiry verdict one operation reaches: a throwing read, a missing
    or empty timestamp count as expired; an unreadable number does not. *)
Definition verdict (p : Platform) (w : World) : bool :=
  if getItem_throws p CACHE_TIMESTAMP_KEY then true
  else match store w !! CACHE_TIMESTAMP_KEY with
       | None => true
       | Some text =>
           if truthy text then
             match parseInt text with
             | Some t => CACHE_DURATION w <? clock p (ticks w) - t
             | None => false
             end
           else true
       end.

(** What a settled request brings: the failure, or the service records
    of the payload. *)
Definition content_of (o : FetchOutcome) : Exn + list APIServiceConfig :=
  match o with
  | FetchRejects => inl NetworkError
  | FetchResponds r =>
      if ok r then
        match body r with
        | MalformedBody => inl SyntaxError
        | IllTypedBody => inl TypeError
        | JsonBody payload => inr (nullish (services payload) [])
        end
      else inl (ApiError (status r))
  end.

(** What a request sent now comes back with. *)
Definition remote (p : Platform) (w : World) : Exn + list APIServiceConfig :=
  content_of (endpoint p (API_URL w)).

(** The store after an attempt to persist [ads]: a throwing write stops
    the attempt where it is. *)
Definition persisted (p : Platform) (w : World) (ads : list AdConfig)
    : gmap string string :=
  if setItem_throws p CACHE_KEY then store w
  else if setItem_throws p CACHE_TIMESTAMP_KEY
  then <[CACHE_KEY := JSON_stringify ads]> (store w)
  else <[CACHE_TIMESTAMP_KEY := Number_toString (clock p (ticks w))]>
         (<[CACHE_KEY := JSON_stringify ads]> (store w)).

(** The list [getAllAds] settles on: the visible cache, else what the
    remote source brings if that is not empty, else the fallback. *)
Definition best_known (p : Platform) (w : World) : list AdConfig :=
  match visible_cache p w with
  | Some cached => cached
  | None =>
      match remote p w with
      | inr (s :: rest) => map (transformService w) (s :: rest)
      | _ => fallbackAds
      end
  end.

(** The payload key cannot be read, is missing or empty, or holds a list
    of ads: what [JSON.parse(cachedData) as AdConfig[]] hands on is then
    really a list of ads.  A stored text whose parse is some other truthy
    value is outside. *)
Definition typed_cache (p : Platform) (w : World) : Prop :=
  getItem_throws p CACHE_KEY = true ∨
  store w !! CACHE_KEY = None ∨
  store w !! CACHE_KEY = Some "" ∨
  ∃ ads, cached_list (store w) = Some ads.

(** The module variables are the same in both worlds. *)
Definition same_config (w1 w2 : World) : Prop :=
  API_URL w1 = API_URL w2 ∧ INTAKE_BASE_URL w1 = INTAKE_BASE_URL w2 ∧
  CACHE_DURATION w1 = CACHE_DURATION w2.

(** Two worlds that differ at most in store keys the module never uses. *)
Definition same_cache (w1 w2 : World) : Prop :=
  API_URL w1 = API_URL w2 ∧ INTAKE_BASE_URL w1 = INTAKE_BASE_URL w2 ∧
  CACHE_DURATION w1 = CACHE_DURATION w2 ∧ ticks w1 = ticks w2 ∧
  requests w1 = requests w2 ∧ pending w1 = pending w2 ∧
  console w1 = console w2 ∧
  store w1 !! CACHE_KEY = store w2 !! CACHE_KEY ∧
  store w1 !! CACHE_TIMESTAMP_KEY = store w2 !! CACHE_TIMESTAMP_KEY.

End Vocabulary.

(** A computation that cannot tell such worlds apart. *)
Definition respects {A} (m : Async A) : Prop :=
  ∀ p w1 w2, same_cache w1 w2 →
    fst (m p w1) = fst (m p w2) ∧ same_cache (snd (m p w1)) (snd (m p w2)).


(** ** Concrete hosts and payloads *)

(** A host on which the listed store accesses throw, every clock read
    returns [now] and every request is answered by [answer]. *)
Definition host (bad_get bad_set bad_remove : list string) (now : Z)
    (answer : FetchOutcome) : Platform :=
  {| getItem_throws := fun key => bool_decide (key ∈ bad_get);
     setItem_throws := fun key => bool_decide (key ∈ bad_set);
     removeItem_throws := fun key => bool_decide (key ∈ bad_remove);
     clock := fun _ => now;
     endpoint := fun _ => answer |}.

Definition web_design : APIServiceConfig :=
  {| Service.id := "web-design";
     Service.title := "Web Design";
     Service.tagline := "Beautiful, responsive websites";
     Service.description := "Full description...";
     Service.features := Some ["Feature 1"; "Feature 2"];
     Service.primaryCtaLabel := "Get Started";
     Service.primaryCtaId := "web-design-intake";
     Service.intakeUrl := "/services/web-design";
     Service.accent := "#0E668B" |}.

Definition tutoring : APIServiceConfig :=
  {| Service.id := "tutoring";
     Service.title := "Tutoring";
     Service.tagline := "Learn to build";
     Service.description := "One-on-one lessons.";
     Service.features := None;
     Service.primaryCtaLabel := "Book a lesson";
     Service.primaryCtaId := "tutoring-intake";
     Service.intakeUrl := "/services/tutoring";
     Service.accent := "teal" |}.

(** A record whose accent token and id are names every object inherits. *)
Definition inherited_names_record : APIServiceConfig :=
  {| Service.id := "constructor";
     Service.title := "Construction";
     Service.tagline := "Built to last";
     Service.description := "Full description...";
     Service.features := Some ["Feature 1"];
     Service.primaryCtaLabel := "Get Started";
     Service.primaryCtaId := "construction-intake";
     Service.intakeUrl := "/services/construction";
     Service.accent := "toString" |}.

Definition answer_with (svcs : option (list APIServiceConfig)) : FetchOutcome :=
  FetchResponds
    {| status := 200;
       body := JsonBody {| version := "1.0.0";
                           generatedAt := "2026-02-02T12:00:00Z";
                           services := svcs |} |}.

Definition server_error : FetchOutcome :=
  FetchResponds {| status := 503; body := MalformedBody |}.

(** A store holding one cached ad written at time [1000]. *)
Definition store_with_entry : gmap string string :=
  <[CACHE_TIMESTAMP_KEY := "1000"]>
  (<[CACHE_KEY := AdsJson.stringify
       [transformService (module_loaded ∅) web_design]]> ∅).

Definition custom_intake : option AdsSDKConfig :=
  Some {| apiUrl := None;
          intakeBaseUrl := Some "https://example.com/";
          cacheDuration := None |}.

(** ** The rest of the public API and its caller *)

Section Callers.
Context `{!JSON}.

(** [getRandomAd()].  [Math_random] is the number [Math.random()] returns
    in this call; the product and its floor are exact here, the rounding
    of the floating-point product is not modelled.  An index outside the
    list reads [undefined], which is [None] here, like [null]. *)
Definition getRandomAd (Math_random : Q) : Async (option AdConfig) :=
  ads ← getAllAds;
  if Nat.eqb (length ads) 0 then mret None
  else
    let index := Qfloor (Math_random * inject_Z (Z.of_nat (length ads))) in
    mret (if index <? 0 then None else ads !! Z.to_nat index).

(** The [loadAd] closure of the [AdBannerWithModal] component, for a
    component that stays mounted: the result is the value handed to
    [setAd].  The caught error is logged without its argument. *)
Definition loadAd (adId : option string) (Math_random : Q)
    : Async (option AdConfig) :=
  try_catch
    (specificAd ← match adId with
                  | Some id => if truthy id then getAdById id else mret None
                  | None => mret None
                  end;
     match specificAd with
     | Some ad => mret (Some ad)
     | None => getRandomAd Math_random
     end)
    (fun error => update (console_warn "Ad load fallback:");; mret None).

End Callers.

(** A computation that leaves every store key other than the module's two
    as it finds it. *)
Definition confined {A} (m : Async A) : Prop :=
  ∀ p w key, key ≠ CACHE_KEY → key ≠ CACHE_TIMESTAMP_KEY →
    store (snd (m p w)) !! key = store w !! key.

(** Unfolds the asynchronous plumbing down to plain functions. *)
Ltac unfold_async :=
  unfold getAllAds, refreshAds, clearAdsCache, deliver, run_task,
    fetchAdsFromAPI, fetch_issue, fetch_resume,
    getCachedAds, setCachedAds, isCacheExpired,
    console_error, Date_now, fetch,
    storage.getItem, storage.setItem, storage.removeItem,
    try_catch, throw, read, update, mbind, mret, Async_bind, Async_ret in *.

(** * Properties *)

(** ** Running the module on concrete hosts *)

(** The codec reads back what it writes. *)
Example codec_round_trip :
  AdsJson.parse (AdsJson.stringify fallbackAds) = ParsedAds fallbackAds.
Proof. vm_compute. reflexivity. Qed.

Example codec_falsy_and_malformed :
  AdsJson.parse "null" = ParsedFalsy ∧ AdsJson.parse "0" = ParsedFalsy ∧
  AdsJson.parse "[]" = ParsedAds [] ∧ AdsJson.parse "[{" = ParseThrows.
Proof. vm_compute. repeat split. Qed.

Example parseInt_samples :
  parseInt "1700000000000" = Some 1700000000000 ∧
  parseInt "  -12px" = Some (-12) ∧
  parseInt "abc" = None ∧ parseInt "" = None.
Proof. vm_compute. repeat split. Qed.

(** A no-break space (bytes 194 160) before the digits is skipped. *)
Example parseInt_skips_no_break_space :
  parseInt (String (ascii_of_nat 194) (String (ascii_of_nat 160) "1000")) = Some 1000 ∧
  parseInt (String (ascii_of_nat 226) (String (ascii_of_nat 128)
             (String (ascii_of_nat 168) " 42"))) = Some 42 ∧
  parseInt (String (ascii_of_nat 194) (String (ascii_of_nat 161) "1000")) = None.
Proof. vm_compute. repeat split. Qed.

Example replace_trailing_slash_samples :
  replace_trailing_slash "https://example.com/" = "https://example.com" ∧
  replace_trailing_slash "https://example.com//" = "https://example.com/" ∧
  replace_trailing_slash "https://example.com/a" = "https://example.com/a".
Proof. vm_compute. repeat split. Qed.

(** A cold call fetches, persists and returns the transformed list; a
    second call within the hour returns the same list without a request. *)
Example cold_call_then_fresh_call :
  fst (getAllAds (host [] [] [] 1000 (answer_with (Some [web_design; tutoring])))
                 (module_loaded ∅))
    = Fulfilled (map (transformService (module_loaded ∅)) [web_design; tutoring]) ∧
  fst (getAllAds (host [] [] [] 5000 FetchRejects)
         (snd (getAllAds (host [] [] [] 1000 (answer_with (Some [web_design; tutoring])))
                         (module_loaded ∅))))
    = Fulfilled (map (transformService (module_loaded ∅)) [web_design; tutoring]) ∧
  requests
    (snd (getAllAds (host [] [] [] 5000 FetchRejects)
            (snd (getAllAds (host [] [] [] 1000 (answer_with (Some [web_design; tutoring])))
                            (module_loaded ∅)))))
    = [DEFAULT_API_URL].
Proof.
  split; [vm_compute; reflexivity |]. split; vm_compute; reflexivity.
Qed.

(** A forced refresh returns the fresh list although the store refuses
    the payload write, and nothing is stored. *)
Example refreshAds_with_failing_store :
  fst (refreshAds (host [] [CACHE_KEY] [] 1000 (answer_with (Some [web_design])))
                  (module_loaded ∅))
    = Fulfilled [transformService (module_loaded ∅) web_design] ∧
  store (snd (refreshAds (host [] [CACHE_KEY] [] 1000 (answer_with (Some [web_design])))
                         (module_loaded ∅)))
    = ∅.
Proof. split; vm_compute; reflexivity. Qed.

(** A forced refresh against a server that answers 503 rejects and keeps
    the entry. *)
Example refreshAds_with_failing_server :
  fst (refreshAds (host [] [] [] 1000 server_error) (module_loaded store_with_entry))
    = Rejected (ApiError 503) ∧
  store (snd (refreshAds (host [] [] [] 1000 server_error)
                         (module_loaded store_with_entry)))
    = store_with_entry.
Proof. split; vm_compute; reflexivity. Qed.

(** ** Numbers written to and read from the timestamp key *)

Lemma digit_prefix_string_of_uint d :
  digit_prefix (NilEmpty.string_of_uint d) = NilEmpty.string_of_uint d.
Proof. induction d; simpl; [done | rewrite IHd; done ..]. Qed.

Lemma skip_spaces_string_of_uint d :
  skip_spaces (NilEmpty.string_of_uint d) = NilEmpty.string_of_uint d.
Proof. destruct d; done. Qed.

Lemma digits_value_string_of_uint d :
  d ≠ Nil → digits_value (NilEmpty.string_of_uint d) = Some (Z.of_uint d).
Proof.
  intros Hd. unfold digits_value. rewrite digit_prefix_string_of_uint.
  destruct d; [done | simpl; rewrite NilEmpty.usu; done ..].
Qed.

Lemma parseInt_digits d :
  d ≠ Nil → parseInt (NilEmpty.string_of_uint d) = Some (Z.of_uint d).
Proof.
  intros Hd. unfold parseInt. rewrite skip_spaces_string_of_uint.
  rewrite <- (digits_value_string_of_uint d Hd).
  destruct d; done.
Qed.

Lemma to_uint_nonnil p : Pos.to_uint p ≠ Nil.
Proof. apply DecimalPos.Unsigned.to_uint_nonnil. Qed.

Lemma parseInt_toString n : parseInt (Number_toString n) = Some n.
Proof.
  unfold Number_toString. destruct n as [|p|p]; simpl.
  - reflexivity.
  - pose proof (to_uint_nonnil p) as Hp.
    replace (NilZero.string_of_uint (Pos.to_uint p)) with (NilEmpty.string_of_uint (Pos.to_uint p))
      by (destruct (Pos.to_uint p); done).
    rewrite parseInt_digits by done.
    unfold Z.of_uint. rewrite DecimalPos.Unsigned.of_to. done.
  - pose proof (to_uint_nonnil p) as Hp.
    replace (NilZero.string_of_uint (Pos.to_uint p)) with (NilEmpty.string_of_uint (Pos.to_uint p))
      by (destruct (Pos.to_uint p); done).
    unfold parseInt. simpl. rewrite digits_value_string_of_uint by done.
    unfold Z.of_uint. rewrite DecimalPos.Unsigned.of_to. done.
Qed.

Lemma truthy_toString n : truthy (Number_toString n) = true.
Proof.
  pose proof (parseInt_toString n) as H. destruct (Number_toString n); [discriminate | done].
Qed.

(** ** How the building blocks run *)

(** Record eta for worlds, to recognise an unchanged world. *)
Lemma world_eta w :
  {| API_URL := API_URL w; INTAKE_BASE_URL := INTAKE_BASE_URL w;
     CACHE_DURATION := CACHE_DURATION w; store := store w; ticks := ticks w;
     requests := requests w; pending := pending w; console := console w |} = w.
Proof. destruct w; reflexivity. Qed.



Section Runs.
Context `{!JSON}.

(** Reading the payload never rejects, shows the visible cache, and
    leaves everything but the console as it was. *)
Lemma getCachedAds_run p w :
  ∃ log, getCachedAds p w = (Fulfilled (visible_cache p w), set_console log w).
Proof.
  unfold visible_cache, cached_list. unfold_async.
  destruct (getItem_throws p CACHE_KEY); [eexists; reflexivity |].
  destruct (store w !! CACHE_KEY) as [text|];
    [| exists (console w); unfold set_console; rewrite world_eta; reflexivity].
  destruct (truthy text); simpl;
    [| exists (console w); unfold set_console; rewrite world_eta; reflexivity].
  destruct (JSON_parse text); simpl;
    first [ exists (console w); unfold set_console; rewrite world_eta; reflexivity
          | eexists; reflexivity ].
Qed.

Lemma isCacheExpired_run p w :
  ∃ n, isCacheExpired p w = (Fulfilled (verdict p w), set_ticks n w).
Proof.
  unfold verdict. unfold_async.
  destruct (getItem_throws p CACHE_TIMESTAMP_KEY);
    [exists (ticks w); unfold set_ticks; rewrite world_eta; reflexivity |].
  destruct (store w !! CACHE_TIMESTAMP_KEY) as [text|];
    [| exists (ticks w); unfold set_ticks; rewrite world_eta; reflexivity].
  destruct (truthy text); simpl;
    [| exists (ticks w); unfold set_ticks; rewrite world_eta; reflexivity].
  destruct (parseInt text); eexists; reflexivity.
Qed.

(** Persisting never rejects; it touches the store, the clock and the
    console only. *)
Lemma setCachedAds_run ads p w :
  ∃ w', setCachedAds ads p w = (Fulfilled tt, w') ∧
        store w' = persisted p w ads ∧ same_config w w' ∧
        requests w' = requests w ∧ pending w' = pending w.
Proof.
  unfold persisted, same_config. unfold_async.
  destruct (setItem_throws p CACHE_KEY); simpl; [eexists; split; [reflexivity | done] |].
  destruct (setItem_throws p CACHE_TIMESTAMP_KEY); simpl;
    eexists; (split; [reflexivity | done]).
Qed.

(** Reading a settled request leaves the world alone. *)
Lemma fetch_resume_run o p w :
  fetch_resume o p w =
    (match content_of o with
     | inl e => Rejected e
     | inr svcs => Fulfilled (map (transformService w) svcs)
     end, w).
Proof.
  unfold content_of. unfold_async.
  destruct o as [|r]; [reflexivity |].
  destruct (ok r); simpl; [| reflexivity].
  destruct (body r); reflexivity.
Qed.

Lemma fetchAdsFromAPI_run p w :
  fetchAdsFromAPI p w =
    (match remote p w with
     | inl e => Rejected e
     | inr svcs => Fulfilled (map (transformService w) svcs)
     end, set_requests (requests w ++ [API_URL w]) w).
Proof.
  unfold fetchAdsFromAPI, fetch_issue, remote.
  unfold mbind, Async_bind, read, fetch. simpl.
  rewrite fetch_resume_run.
  destruct (content_of (endpoint p (API_URL w))); [reflexivity |].
  f_equal.
Qed.

(** A delivered background refresh never rejects. *)
Lemma run_task_run t p w :
  ∃ w', run_task t p w = (Fulfilled tt, w') ∧ requests w' = requests w ∧
        pending w' = pending w ∧ same_config w w' ∧
        store w' = match t with
                   | BackgroundRefresh o =>
                       match content_of o with
                       | inl _ => store w
                       | inr svcs => persisted p w (map (transformService w) svcs)
                       end
                   end.
Proof.
  destruct t as [o]. unfold run_task, try_catch, mbind, Async_bind.
  rewrite fetch_resume_run.
  destruct (content_of o) as [e|svcs].
  - unfold console_error, update. eexists. split; [reflexivity |]. done.
  - destruct (setCachedAds_run (map (transformService w) svcs) p w)
      as (w' & -> & Hs & Hc & Hr & Hp).
    exists w'. done.
Qed.

Lemma getAllAds_run p w :
  ∃ w', getAllAds p w = (Fulfilled (best_known p w), w').
Proof.
  unfold getAllAds, best_known, mbind, Async_bind.
  destruct (getCachedAds_run p w) as [log ->].
  destruct (isCacheExpired_run p (set_console log w)) as [n ->].
  destruct (visible_cache p w) as [cached|].
  - destruct (verdict p (set_console log w)); simpl; eexists; reflexivity.
  - unfold try_catch, mbind, Async_bind. rewrite fetchAdsFromAPI_run.
    change (remote p (set_ticks n (set_console log w))) with (remote p w).
    destruct (remote p w) as [e|svcs].
    + eexists. reflexivity.
    + match goal with |- context [setCachedAds ?a ?q ?v] =>
        destruct (setCachedAds_run a q v) as (w' & -> & _) end.
      exists w'. unfold mret, Async_ret. f_equal.
      destruct svcs; reflexivity.
Qed.
(** A forced refresh: the request, then the persist step. *)
Lemma refreshAds_run p w :
  ∃ w', refreshAds p w =
          (match remote p w with
           | inl e => Rejected e
           | inr svcs => Fulfilled (map (transformService w) svcs)
           end, w') ∧
        requests w' = (requests w ++ [API_URL w])%list ∧
        store w' = match remote p w with
                   | inl _ => store w
                   | inr svcs => persisted p w (map (transformService w) svcs)
                   end.
Proof.
  unfold refreshAds, mbind, Async_bind. rewrite fetchAdsFromAPI_run.
  destruct (remote p w) as [e|svcs]; [eexists; split; [reflexivity | done] |].
  match goal with |- context [setCachedAds ?a ?q ?v] =>
    destruct (setCachedAds_run a q v) as (w' & -> & Hs & _ & Hr & _) end.
  exists w'. split; [reflexivity |]. rewrite Hr, Hs. done.
Qed.

End Runs.

(** ** Degradation without errors *)

Section Degradation.
Context `{!JSON}.

(** C1.  Whatever the cache holds and whatever fails (the request, the
    status, the body, any store read or write), [getAllAds()] resolves.
    It resolves with the cached list when one is visible; otherwise with
    the freshly fetched list when the fetch brings a list with something
    in it; otherwise with the static fallback list.  A background refresh
    it leaves behind resolves as well when it is delivered. *)
Theorem getAllAds_always_resolves p w :
  ∃ ads w',
    getAllAds p w = (Fulfilled ads, w') ∧
    ads = match visible_cache p w with
          | Some cached => cached
          | None =>
              match remote p w with
              | inr (s :: rest) => map (transformService w) (s :: rest)
              | _ => fallbackAds
              end
          end ∧
    ∀ q, ∃ w'', deliver q w' = (Fulfilled tt, w'').
Proof.
  destruct (getAllAds_run p w) as [w' Hrun].
  exists (best_known p w), w'. split; [exact Hrun |].
  split; [reflexivity |].
  intros q. unfold deliver, mbind, Async_bind, read.
  destruct (pending w') as [|t rest]; [eexists; reflexivity |].
  unfold update.
  destruct (run_task_run t q (set_pending rest w')) as (w'' & Ht & _).
  exists w''. exact Ht.
Qed.

End Degradation.

(** ** Cache states and the branch each one takes *)

Section States.
Context `{!JSON}.

Lemma cache_state_Absent w now :
  cache_state w now = Absent ↔ cached_list (store w) = None.
Proof.
  unfold cache_state. destruct (cached_list (store w)); [| done].
  destruct (cache_age (store w) now) as [age|]; [| done].
  destruct (age <=? CACHE_DURATION w); done.
Qed.

Lemma cache_state_timed w now ads :
  cache_state w now = Fresh ads ∨ cache_state w now = Stale ads →
  cached_list (store w) = Some ads ∧
  ∃ text t, store w !! CACHE_TIMESTAMP_KEY = Some text ∧ truthy text = true ∧
            parseInt text = Some t ∧
            cache_state w now =
              if now - t <=? CACHE_DURATION w then Fresh ads else Stale ads.
Proof.
  unfold cache_state, cache_age.
  destruct (cached_list (store w)) as [ads'|]; [| intros [|]; done].
  destruct (store w !! CACHE_TIMESTAMP_KEY) as [text|]; simpl; [| intros [|]; done].
  destruct (parseInt text) as [t|] eqn:Ht; simpl; [| intros [|]; done].
  intros Hs.
  assert (ads' = ads) as ->
    by (destruct (now - t <=? CACHE_DURATION w); destruct Hs; congruence).
  split; [done |]. exists text, t. repeat split; try done.
  destruct text; [discriminate | done].
Qed.

Lemma verdict_Fresh p w ads :
  getItem_throws p CACHE_TIMESTAMP_KEY = false →
  cache_state w (clock p (ticks w)) = Fresh ads → verdict p w = false.
Proof.
  intros Hr Hs.
  destruct (cache_state_timed w _ ads (or_introl Hs)) as (_ & text & t & Hl & Ht & Hp & Hc).
  unfold verdict. rewrite Hr, Hl, Ht, Hp. rewrite Hs in Hc.
  destruct (clock p (ticks w) - t <=? CACHE_DURATION w) eqn:E; [lia | done].
Qed.

Lemma verdict_Stale p w ads :
  cache_state w (clock p (ticks w)) = Stale ads → verdict p w = true.
Proof.
  intros Hs.
  destruct (cache_state_timed w _ ads (or_intror Hs)) as (_ & text & t & Hl & Ht & Hp & Hc).
  unfold verdict. rewrite Hl, Ht, Hp. rewrite Hs in Hc.
  destruct (getItem_throws p CACHE_TIMESTAMP_KEY); [done |].
  destruct (clock p (ticks w) - t <=? CACHE_DURATION w) eqn:E; [done | lia].
Qed.

(** The branch taken when a cached list is visible and not expired. *)
Lemma getAllAds_serves_cache p w ads :
  visible_cache p w = Some ads → verdict p w = false →
  ∃ w', getAllAds p w = (Fulfilled ads, w') ∧ requests w' = requests w ∧
        pending w' = pending w ∧ store w' = store w ∧ same_config w w'.
Proof.
  intros Hc Hv. unfold getAllAds, mbind, Async_bind.
  destruct (getCachedAds_run p w) as [log ->].
  destruct (isCacheExpired_run p (set_console log w)) as [n ->].
  change (verdict p (set_console log w)) with (verdict p w).
  rewrite Hc, Hv. simpl. eexists. split; [reflexivity |]. done.
Qed.

(** The branch taken when a cached list is visible and expired. *)
Lemma getAllAds_revalidates p w ads :
  visible_cache p w = Some ads → verdict p w = true →
  ∃ w', getAllAds p w = (Fulfilled ads, w') ∧
        requests w' = (requests w ++ [API_URL w])%list ∧
        pending w' = (pending w ++ [BackgroundRefresh (endpoint p (API_URL w))])%list ∧
        store w' = store w ∧ same_config w w'.
Proof.
  intros Hc Hv. unfold getAllAds, mbind, Async_bind.
  destruct (getCachedAds_run p w) as [log ->].
  destruct (isCacheExpired_run p (set_console log w)) as [n ->].
  change (verdict p (set_console log w)) with (verdict p w).
  rewrite Hc, Hv. simpl. eexists. split; [reflexivity |]. done.
Qed.

(** The branch taken when no cached list is visible. *)
Lemma getAllAds_cold p w :
  visible_cache p w = None →
  ∃ w' n, getAllAds p w = (Fulfilled (best_known p w), w') ∧
        requests w' = (requests w ++ [API_URL w])%list ∧
        pending w' = pending w ∧ same_config w w' ∧
        store w' = match remote p w with
                   | inl _ => store w
                   | inr svcs =>
                       persisted p (set_ticks n w) (map (transformService w) svcs)
                   end.
Proof.
  intros Hc. unfold best_known. unfold getAllAds, mbind, Async_bind.
  destruct (getCachedAds_run p w) as [log ->].
  destruct (isCacheExpired_run p (set_console log w)) as [n ->].
  rewrite Hc. unfold try_catch, mbind, Async_bind. rewrite fetchAdsFromAPI_run.
  change (remote p (set_ticks n (set_console log w))) with (remote p w).
  destruct (remote p w) as [e|svcs].
  - eexists; exists n. split; [reflexivity |]. done.
  - match goal with |- context [setCachedAds ?a ?q ?v] =>
      destruct (setCachedAds_run a q v) as (w' & -> & Hs & Hcfg & Hr & Hp) end.
    exists w', n. unfold mret, Async_ret.
    split; [f_equal; destruct svcs; reflexivity |].
    rewrite Hr, Hp, Hs. done.
Qed.

End States.

(** ** The module only depends on its own two keys *)

Section Same.
Context `{!JSON}.

Lemma same_cache_refl w : same_cache w w.
Proof. unfold same_cache. done. Qed.







Lemma respects_removeItem key : respects (storage.removeItem key).
Proof.
  intros p w1 w2 Hsame. unfold storage.removeItem.
  destruct (removeItem_throws p key); [done |]. simpl. split; [done |].
  destruct Hsame as (? & ? & ? & ? & ? & ? & ? & Hk & Ht).
  unfold same_cache. simpl. rewrite !lookup_delete, Hk, Ht. done.
Qed.







End Same.

(** ** The three cache states *)

Section CacheStates.
Context `{!JSON}.

(** C5.  When a cache entry exists and its age is at most
    [CACHE_DURATION] (the store being readable), [getAllAds()] resolves
    with the cached list, sends no request and leaves no background
    refresh behind. *)
Theorem fresh_cache_served_without_network p w ads :
  getItem_throws p CACHE_KEY = false →
  getItem_throws p CACHE_TIMESTAMP_KEY = false →
  cache_state w (clock p (ticks w)) = Fresh ads →
  ∃ w', getAllAds p w = (Fulfilled ads, w') ∧
        requests w' = requests w ∧ pending w' = pending w.
Proof.
  intros Hk Ht Hs.
  destruct (cache_state_timed w _ ads (or_introl Hs)) as (Hc & _).
  destruct (getAllAds_serves_cache p w ads) as (w' & Hrun & Hr & Hp & _).
  - unfold visible_cache. rewrite Hk. exact Hc.
  - eapply verdict_Fresh; eassumption.
  - exists w'. done.
Qed.

(** C2.  When a cache entry exists and its age exceeds [CACHE_DURATION],
    [getAllAds()] resolves with the cached list, sends exactly one
    request and leaves exactly one background refresh behind, the store
    being as it was.  When that refresh is delivered it resolves and
    sends nothing more; if the request failed the store is left as it
    is; if it succeeded the store goes through the persist step, which
    overwrites the payload key and the timestamp key when the store
    accepts the writes. *)
Theorem stale_cache_served_and_refreshed p w ads :
  getItem_throws p CACHE_KEY = false →
  cache_state w (clock p (ticks w)) = Stale ads →
  ∃ w', getAllAds p w = (Fulfilled ads, w') ∧
        requests w' = (requests w ++ [API_URL w])%list ∧
        pending w' = (pending w ++ [BackgroundRefresh (endpoint p (API_URL w))])%list ∧
        store w' = store w ∧
        ∀ q v, ∃ v',
          run_task (BackgroundRefresh (endpoint p (API_URL w))) q v = (Fulfilled tt, v') ∧
          requests v' = requests v ∧
          match remote p w with
          | inl _ => store v' = store v
          | inr svcs =>
              store v' = persisted q v (map (transformService v) svcs) ∧
              (setItem_throws q CACHE_KEY = false →
               setItem_throws q CACHE_TIMESTAMP_KEY = false →
               store v' !! CACHE_KEY = Some (JSON_stringify (map (transformService v) svcs)) ∧
               store v' !! CACHE_TIMESTAMP_KEY = Some (Number_toString (clock q (ticks v))))
          end.
Proof.
  intros Hk Hs.
  destruct (cache_state_timed w _ ads (or_intror Hs)) as (Hc & _).
  destruct (getAllAds_revalidates p w ads) as (w' & Hrun & Hr & Hp & Hst & _).
  - unfold visible_cache. rewrite Hk. exact Hc.
  - eapply verdict_Stale; eassumption.
  - exists w'. repeat (split; [assumption |]).
    intros q v.
    destruct (run_task_run (BackgroundRefresh (endpoint p (API_URL w))) q v)
      as (v' & Ht & Hrq & _ & _ & Hsv).
    exists v'. repeat (split; [assumption |]).
    unfold remote. destruct (content_of (endpoint p (API_URL w))) as [e|svcs]; [exact Hsv |].
    split; [exact Hsv |].
    intros Hw1 Hw2. rewrite Hsv. unfold persisted. rewrite Hw1, Hw2.
    rewrite lookup_insert_ne by done. rewrite !lookup_insert_eq. done.
Qed.

(** C3.  When no cache entry exists and the request fails,
    [getAllAds()] resolves with the static fallback list, which has four
    entries, and the store is as it was: the cache is still absent, and
    the next call sends a request again. *)
Theorem cold_cache_unreachable_remote p w e :
  cache_state w (clock p (ticks w)) = Absent →
  remote p w = inl e →
  ∃ w', getAllAds p w = (Fulfilled fallbackAds, w') ∧
        length fallbackAds = 4%nat ∧
        store w' = store w ∧
        (∀ now, cache_state w' now = Absent) ∧
        ∀ q, ∃ ads w'', getAllAds q w' = (Fulfilled ads, w'') ∧
                        requests w'' = (requests w' ++ [API_URL w'])%list.
Proof.
  intros Hs Hr. apply cache_state_Absent in Hs.
  assert (∀ q v, store v = store w → visible_cache q v = None) as Hcold.
  { intros q v Hv. unfold visible_cache. rewrite Hv, Hs.
    destruct (getItem_throws q CACHE_KEY); reflexivity. }
  destruct (getAllAds_cold p w (Hcold p w eq_refl)) as (w' & n & Hrun & _ & _ & _ & Hst).
  unfold best_known in Hrun. rewrite (Hcold p w eq_refl), Hr in Hrun. rewrite Hr in Hst.
  exists w'. split; [exact Hrun |]. split; [reflexivity |]. split; [exact Hst |].
  split.
  - intros now. apply cache_state_Absent. rewrite Hst. exact Hs.
  - intros q.
    destruct (getAllAds_cold q w' (Hcold q w' Hst)) as (w'' & _ & Hrun' & Hrq & _).
    eauto.
Qed.

(** C10.  When no cache entry exists and the request succeeds with an
    empty service list, [getAllAds()] resolves with the static fallback
    list but persists the empty list with the current time; a later
    [getAllAds()] on that store, within [CACHE_DURATION] of that time,
    resolves with the empty cached list, not the fallback list, and
    sends no request. *)
Theorem empty_remote_list_is_cached p w :
  cache_state w (clock p (ticks w)) = Absent →
  remote p w = inr [] →
  setItem_throws p CACHE_KEY = false →
  setItem_throws p CACHE_TIMESTAMP_KEY = false →
  JSON_stringify [] = "[]" →
  JSON_parse "[]" = ParsedAds [] →
  ∃ w' n,
    getAllAds p w = (Fulfilled fallbackAds, w') ∧
    store w' = <[CACHE_TIMESTAMP_KEY := Number_toString (clock p n)]>
                 (<[CACHE_KEY := "[]"]> (store w)) ∧
    ∀ q v,
      store v = store w' →
      getItem_throws q CACHE_KEY = false →
      getItem_throws q CACHE_TIMESTAMP_KEY = false →
      clock q (ticks v) - clock p n <= CACHE_DURATION v →
      ∃ v', getAllAds q v = (Fulfilled [], v') ∧
            requests v' = requests v ∧ pending v' = pending v ∧
            [] ≠ fallbackAds.
Proof.
  intros Hs Hr Hw1 Hw2 Hnil Hparse. apply cache_state_Absent in Hs.
  assert (visible_cache p w = None) as Hcold.
  { unfold visible_cache. rewrite Hs. destruct (getItem_throws p CACHE_KEY); reflexivity. }
  destruct (getAllAds_cold p w Hcold) as (w' & n & Hrun & _ & _ & _ & Hst).
  unfold best_known in Hrun. rewrite Hcold, Hr in Hrun. rewrite Hr in Hst.
  unfold persisted in Hst. rewrite Hw1, Hw2 in Hst. simpl in Hst. rewrite Hnil in Hst.
  exists w', n. split; [exact Hrun |]. split; [exact Hst |].
  intros q v Hv Hg1 Hg2 Hage.
  assert (cache_state v (clock q (ticks v)) = Fresh []) as Hfresh.
  { unfold cache_state, cached_list, cache_age. rewrite Hv, Hst.
    rewrite lookup_insert_ne by done. rewrite !lookup_insert_eq.
    rewrite Hparse. simpl. rewrite parseInt_toString. simpl.
    destruct (clock q (ticks v) - clock p n <=? CACHE_DURATION v) eqn:E; [done | lia]. }
  destruct (cache_state_timed v _ [] (or_introl Hfresh)) as (Hc & _).
  destruct (getAllAds_serves_cache q v []) as (v' & Hrun' & Hrq & Hp & _).
  - unfold visible_cache. rewrite Hg1. exact Hc.
  - eapply verdict_Fresh; eassumption.
  - exists v'. done.
Qed.


End CacheStates.

Lemma fresh_cache_served_without_network_witness :
  ∃ w', getAllAds (host [] [] [] 2000 FetchRejects) (module_loaded store_with_entry)
          = (Fulfilled [transformService (module_loaded ∅) web_design], w') ∧
        requests w' = [] ∧ pending w' = [].
Proof.
  apply (fresh_cache_served_without_network
           (host [] [] [] 2000 FetchRejects) (module_loaded store_with_entry)).
  - reflexivity.
  - reflexivity.
  - vm_compute. reflexivity.
Defined.

Lemma stale_cache_served_and_refreshed_witness :
  ∃ w' v',
    getAllAds (host [] [] [] 3601001 (answer_with (Some [tutoring])))
              (module_loaded store_with_entry)
      = (Fulfilled [transformService (module_loaded ∅) web_design], w') ∧
    requests w' = [DEFAULT_API_URL] ∧
    pending w' = [BackgroundRefresh (answer_with (Some [tutoring]))] ∧
    store w' = store_with_entry ∧
    run_task (BackgroundRefresh (answer_with (Some [tutoring])))
             (host [] [] [] 3601500 FetchRejects) (module_loaded store_with_entry)
      = (Fulfilled tt, v') ∧
    store v' !! CACHE_KEY
      = Some (JSON_stringify [transformService (module_loaded ∅) tutoring]) ∧
    store v' !! CACHE_TIMESTAMP_KEY = Some (Number_toString 3601500).
Proof.
  destruct (stale_cache_served_and_refreshed
              (host [] [] [] 3601001 (answer_with (Some [tutoring])))
              (module_loaded store_with_entry)
              [transformService (module_loaded ∅) web_design])
    as (w' & Hrun & Hr & Hp & Hs & Hdeliver).
  - reflexivity.
  - vm_compute. reflexivity.
  - destruct (Hdeliver (host [] [] [] 3601500 FetchRejects)
                       (module_loaded store_with_entry))
      as (v' & Htask & _ & _ & Hkeys).
    destruct (Hkeys eq_refl eq_refl) as [Hpayload Hstamp].
    exists w', v'.
    split; [exact Hrun |]. split; [exact Hr |]. split; [exact Hp |].
    split; [exact Hs |]. split; [exact Htask |].
    split; [exact Hpayload | exact Hstamp].
Defined.

Lemma cold_cache_unreachable_remote_witness :
  ∃ w', getAllAds (host [] [] [] 2000 server_error) (module_loaded ∅)
          = (Fulfilled fallbackAds, w') ∧
        store w' = ∅.
Proof.
  destruct (cold_cache_unreachable_remote
              (host [] [] [] 2000 server_error) (module_loaded ∅) (ApiError 503))
    as (w' & Hrun & _ & Hs & _).
  - reflexivity.
  - reflexivity.
  - exists w'. done.
Defined.

Lemma empty_remote_list_is_cached_witness :
  ∃ w' v v',
    getAllAds (host [] [] [] 2000 (answer_with (Some []))) (module_loaded ∅)
      = (Fulfilled fallbackAds, w') ∧
    store v = store w' ∧
    getAllAds (host [] [] [] 3000 (answer_with (Some [web_design]))) v
      = (Fulfilled [], v').
Proof.
  destruct (empty_remote_list_is_cached
              (host [] [] [] 2000 (answer_with (Some []))) (module_loaded ∅))
    as (w' & n & Hrun & Hs & Hnext); try reflexivity.
  destruct (Hnext (host [] [] [] 3000 (answer_with (Some [web_design])))
                  (module_loaded (store w')))
    as (v' & Hrun' & _); try reflexivity.
  - vm_compute. discriminate.
  - exists w', (module_loaded (store w')), v'. split; [exact Hrun |].
    split; [reflexivity | exact Hrun'].
Defined.


(** ** Forced refresh and invalidation *)

Section RefreshAndClear.
Context `{!JSON}.

(** C4.  [refreshAds()] sends a request whatever the cache holds.  When
    the request fails it rejects with that error and the store is as it
    was.  When the request succeeds it resolves with the fresh list
    whether or not the store accepts the writes of the persist step. *)
Theorem refreshAds_fetches_then_persists p w :
  ∃ r w', refreshAds p w = (r, w') ∧
          requests w' = (requests w ++ [API_URL w])%list ∧
          match remote p w with
          | inl e => r = Rejected e ∧ store w' = store w
          | inr svcs =>
              r = Fulfilled (map (transformService w) svcs) ∧
              store w' = persisted p w (map (transformService w) svcs)
          end.
Proof.
  destruct (refreshAds_run p w) as (w' & Hrun & Hr & Hs).
  eexists _, w'. split; [exact Hrun |]. split; [exact Hr |].
  destruct (remote p w); split; done.
Qed.

(** C6, as the code has it.  [clearAdsCache()] resolves exactly when
    neither removal throws, and then both keys are gone, also when they
    were not there.  It rejects as soon as one removal throws: when the
    payload removal throws nothing is removed, the timestamp removal not
    being attempted; when only the timestamp removal throws the payload
    is already removed. *)
Theorem clearAdsCache_rejects_on_first_failure p w :
  ∃ r w', clearAdsCache p w = (r, w') ∧
    (r = Fulfilled tt ↔
       removeItem_throws p CACHE_KEY = false ∧
       removeItem_throws p CACHE_TIMESTAMP_KEY = false) ∧
    (r = Fulfilled tt →
       store w' = delete CACHE_TIMESTAMP_KEY (delete CACHE_KEY (store w)) ∧
       (store w !! CACHE_KEY = None → store w !! CACHE_TIMESTAMP_KEY = None →
        store w' = store w)) ∧
    (removeItem_throws p CACHE_KEY = true →
       r = Rejected (StorageError CACHE_KEY) ∧ store w' = store w) ∧
    (removeItem_throws p CACHE_KEY = false →
     removeItem_throws p CACHE_TIMESTAMP_KEY = true →
       r = Rejected (StorageError CACHE_TIMESTAMP_KEY) ∧
       store w' = delete CACHE_KEY (store w)).
Proof.
  unfold clearAdsCache, mbind, Async_bind, storage.removeItem.
  destruct (removeItem_throws p CACHE_KEY) eqn:E1.
  { eexists _, _. split; [reflexivity |]. intuition congruence. }
  simpl. destruct (removeItem_throws p CACHE_TIMESTAMP_KEY) eqn:E2.
  { eexists _, _. split; [reflexivity |]. simpl. intuition congruence. }
  eexists _, _. split; [reflexivity |]. simpl.
  intuition (try congruence).
  rewrite (delete_id (store w) CACHE_KEY) by assumption.
  apply delete_id. assumption.
Qed.

End RefreshAndClear.

Lemma clearAdsCache_rejects_on_first_failure_witness :
  ∃ w', clearAdsCache (host [] [] [] 2000 FetchRejects) (module_loaded store_with_entry)
          = (Fulfilled tt, w') ∧
        store w' = ∅.
Proof.
  destruct (clearAdsCache_rejects_on_first_failure
              (host [] [] [] 2000 FetchRejects) (module_loaded store_with_entry))
    as (r & w' & Hrun & [_ Hok] & Hstore & _).
  assert (r = Fulfilled tt) as Hr by (apply Hok; split; reflexivity).
  subst r. exists w'. split; [exact Hrun |].
  destruct (Hstore eq_refl) as [-> _]. vm_compute. reflexivity.
Defined.

(** C6 as the specification words it does not hold: with the payload
    removal succeeding and the timestamp removal throwing, exactly one
    removal fails, and the call rejects. *)
Lemma clearAdsCache_one_failure_rejects :
  removeItem_throws (host [] [] [CACHE_TIMESTAMP_KEY] 2000 FetchRejects) CACHE_KEY = false ∧
  removeItem_throws (host [] [] [CACHE_TIMESTAMP_KEY] 2000 FetchRejects)
                    CACHE_TIMESTAMP_KEY = true ∧
  fst (clearAdsCache (host [] [] [CACHE_TIMESTAMP_KEY] 2000 FetchRejects)
                     (module_loaded store_with_entry))
    = Rejected (StorageError CACHE_TIMESTAMP_KEY) ∧
  ¬ (∀ q w, removeItem_throws q CACHE_KEY = false ∨
            removeItem_throws q CACHE_TIMESTAMP_KEY = false →
            ∃ w', clearAdsCache q w = (Fulfilled tt, w')).
Proof.
  repeat split; try reflexivity.
  intros Hclaim.
  destruct (Hclaim (host [] [] [CACHE_TIMESTAMP_KEY] 2000 FetchRejects)
                   (module_loaded store_with_entry)) as [w' Hw'].
  - left. reflexivity.
  - vm_compute in Hw'. discriminate Hw'.
Qed.

(** ** The content transformer *)

Lemma colorMap_unknown token :
  token ∉ ["#0E668B"; "#1E9E70"; "#723B80"; "#EEA444"; "#D63C83"] →
  colorMap !! token = None.
Proof.
  intros Hn. unfold colorMap.
  rewrite !lookup_insert_ne by (intros <-; apply Hn; set_solver).
  apply lookup_empty.
Qed.

Lemma iconMap_unknown id :
  id ∉ ["app-development"; "website-building"; "game-development";
        "tutoring"; "online-presence"] →
  iconMap !! id = None.
Proof.
  intros Hn. unfold iconMap.
  rewrite !lookup_insert_ne by (intros <-; apply Hn; set_solver).
  apply lookup_empty.
Qed.

(** A key that is in a table is read from the table. *)
Lemma table_get_own {A} (table : gmap string A) key a :
  table !! key = Some a → table_get table key = Some (Plain a).
Proof. intros H. unfold table_get. rewrite H. reflexivity. Qed.

(** A key that is neither in a table nor inherited reads [undefined]. *)
Lemma table_get_missing {A} (table : gmap string A) key :
  table !! key = None → key ∉ Object_prototype_members →
  table_get table key = None.
Proof.
  intros H Hn. unfold table_get. rewrite H.
  rewrite bool_decide_eq_false_2 by exact Hn. reflexivity.
Qed.

(** A key that is not in a table but names an inherited member reads that
    member. *)
Lemma table_get_inherited {A} (table : gmap string A) key :
  table !! key = None → key ∈ Object_prototype_members →
  table_get table key = Some (FromPrototype key).
Proof.
  intros H Hin. unfold table_get. rewrite H.
  rewrite bool_decide_eq_true_2 by exact Hin. reflexivity.
Qed.

Section Transformer.
Context `{!JSON}.

(** What the transformer does for every service record.  The accent is
    the colour-table entry of the record's accent token, and [blue] for a
    token that is neither in the table nor the name of a member inherited
    from [Object.prototype]; the icon is the icon-table entry of the
    record's id, and ['information-circle-outline'] for an id that is
    neither in the table nor such a name; for a token or an id that is
    such a name the field holds the inherited member.  The [ctaUrl] is the
    intake base URL of the moment followed by the record's [intakeUrl],
    nothing normalised; the features are those of the record, or the
    empty list when the record has none.  A successful fetch applies the
    transformer to the services of the payload, in order, a payload
    without [services] giving the empty list. *)
Lemma transformService_maps_records w service :
  let ad := transformService w service in
  (∀ color, colorMap !! Service.accent service = Some color →
            Ad.accentColor ad = Plain color) ∧
  (Service.accent service ∉ ["#0E668B"; "#1E9E70"; "#723B80"; "#EEA444"; "#D63C83"] →
   Service.accent service ∉ Object_prototype_members →
     Ad.accentColor ad = Plain blue) ∧
  (Service.accent service ∈ Object_prototype_members →
     Ad.accentColor ad = FromPrototype (Service.accent service)) ∧
  (∀ name, iconMap !! Service.id service = Some name → Ad.icon ad = Plain name) ∧
  (Service.id service ∉ ["app-development"; "website-building";
                         "game-development"; "tutoring"; "online-presence"] →
   Service.id service ∉ Object_prototype_members →
     Ad.icon ad = Plain "information-circle-outline") ∧
  (Service.id service ∈ Object_prototype_members →
     Ad.icon ad = FromPrototype (Service.id service)) ∧
  Ad.ctaUrl ad = INTAKE_BASE_URL w +:+ Service.intakeUrl service ∧
  Ad.features ad = Some (match Service.features service with
                         | Some fs => fs
                         | None => []
                         end) ∧
  ∀ p r payload,
    ok r = true → body r = JsonBody payload →
    ∃ ads, fetch_resume (FetchResponds r) p w = (Fulfilled ads, w) ∧
           length ads = length (match services payload with
                                | Some svcs => svcs
                                | None => []
                                end) ∧
           ∀ i, ads !! i = transformService w <$>
                             (match services payload with
                              | Some svcs => svcs
                              | None => []
                              end) !! i.
Proof.
  assert (∀ key, key ∈ Object_prototype_members → colorMap !! key = None) as Hcolor.
  { intros key Hin. apply colorMap_unknown. intros Hk.
    unfold Object_prototype_members in Hin.
    repeat (apply elem_of_cons in Hin as [-> | Hin];
            [repeat (apply elem_of_cons in Hk as [Hk | Hk]; [discriminate Hk |]);
             inversion Hk |]).
    inversion Hin. }
  assert (∀ key, key ∈ Object_prototype_members → iconMap !! key = None) as Hicon.
  { intros key Hin. apply iconMap_unknown. intros Hk.
    unfold Object_prototype_members in Hin.
    repeat (apply elem_of_cons in Hin as [-> | Hin];
            [repeat (apply elem_of_cons in Hk as [Hk | Hk]; [discriminate Hk |]);
             inversion Hk |]).
    inversion Hin. }
  cbv zeta. repeat split.
  - intros color Hc. unfold transformService. simpl.
    rewrite (table_get_own _ _ _ Hc). reflexivity.
  - intros Hn Hp. unfold transformService. simpl.
    rewrite (table_get_missing _ _ (colorMap_unknown _ Hn) Hp). reflexivity.
  - intros Hp. unfold transformService. simpl.
    rewrite (table_get_inherited _ _ (Hcolor _ Hp) Hp). reflexivity.
  - intros name Hi. unfold transformService. simpl.
    rewrite (table_get_own _ _ _ Hi). reflexivity.
  - intros Hn Hp. unfold transformService. simpl.
    rewrite (table_get_missing _ _ (iconMap_unknown _ Hn) Hp). reflexivity.
  - intros Hp. unfold transformService. simpl.
    rewrite (table_get_inherited _ _ (Hicon _ Hp) Hp). reflexivity.
  - intros p r payload Hok Hbody.
    rewrite fetch_resume_run. unfold content_of. rewrite Hok, Hbody.
    eexists. split; [reflexivity |]. split.
    + rewrite length_map. destruct (services payload); reflexivity.
    + intros i. rewrite list_lookup_fmap. destruct (services payload); reflexivity.
Qed.

(** C8 does not hold of the code.  A record whose accent token is
    [toString] and whose id is [constructor] names no entry of either
    table, but the two lookups find the members of those names that the
    table objects inherit, so the guards [|| 'blue'] and
    [|| 'information-circle-outline'] are not taken: the ad holds the two
    inherited functions where the default accent and the default icon were
    to be, whatever the configuration. *)
Theorem transformService_inherited_names_escape_the_defaults w :
  colorMap !! Service.accent inherited_names_record = None ∧
  iconMap !! Service.id inherited_names_record = None ∧
  Ad.accentColor (transformService w inherited_names_record)
    = FromPrototype "toString" ∧
  Ad.accentColor (transformService w inherited_names_record) ≠ Plain blue ∧
  Ad.icon (transformService w inherited_names_record)
    = FromPrototype "constructor" ∧
  Ad.icon (transformService w inherited_names_record)
    ≠ Plain "information-circle-outline".
Proof.
  repeat split; try reflexivity; discriminate.
Qed.

End Transformer.

Lemma transformService_maps_records_witness :
  Ad.accentColor (transformService (module_loaded ∅) tutoring) = Plain blue ∧
  Ad.icon (transformService (module_loaded ∅) tutoring) = Plain "school-outline" ∧
  Ad.accentColor (transformService (module_loaded ∅) web_design) = Plain blue ∧
  Ad.icon (transformService (module_loaded ∅) web_design)
    = Plain "information-circle-outline" ∧
  ∃ ads, fetch_resume (answer_with (Some [web_design; tutoring]))
           (host [] [] [] 2000 FetchRejects) (module_loaded ∅)
         = (Fulfilled ads, module_loaded ∅) ∧ length ads = 2%nat.
Proof.
  destruct (transformService_maps_records (module_loaded ∅) tutoring)
    as (_ & Hblue & _ & Hicon & _ & _ & _ & _ & _).
  destruct (transformService_maps_records (module_loaded ∅) web_design)
    as (Hcolor & _ & _ & _ & Hdefault & _ & _ & _ & Hfetch).
  split; [apply Hblue; apply (bool_decide_unpack _); vm_compute; exact I |].
  split; [apply Hicon; reflexivity |].
  split; [apply Hcolor; reflexivity |].
  split; [apply Hdefault; apply (bool_decide_unpack _); vm_compute; exact I |].
  destruct (Hfetch (host [] [] [] 2000 FetchRejects)
              {| status := 200;
                 body := JsonBody {| version := "1.0.0";
                                     generatedAt := "2026-02-02T12:00:00Z";
                                     services := Some [web_design; tutoring] |} |}
              _ eq_refl eq_refl) as (ads & Hrun & Hlen & _).
  exists ads. split; [exact Hrun | exact Hlen].
Defined.

(** ** Configuration *)

(** Initialisation leaves the store, the clock and the traces alone. *)
Lemma initializeAdsSDK_frame config w :
  store (initializeAdsSDK config w) = store w ∧
  ticks (initializeAdsSDK config w) = ticks w ∧
  requests (initializeAdsSDK config w) = requests w ∧
  pending (initializeAdsSDK config w) = pending w.
Proof.
  unfold initializeAdsSDK.
  set (w1 := match config ≫= apiUrl with Some _ => _ | None => _ end).
  set (w2 := match config ≫= intakeBaseUrl with Some _ => _ | None => _ end).
  assert (store w1 = store w ∧ ticks w1 = ticks w ∧
          requests w1 = requests w ∧ pending w1 = pending w) as (Hs1 & Ht1 & Hr1 & Hp1).
  { subst w1. destruct (config ≫= apiUrl) as [u|]; [| done].
    destruct (truthy u); [| done].
    match goal with |- context [if ?b then _ else _] => destruct b end; done. }
  assert (store w2 = store w ∧ ticks w2 = ticks w ∧
          requests w2 = requests w ∧ pending w2 = pending w) as (Hs2 & Ht2 & Hr2 & Hp2).
  { rewrite <- Hs1, <- Ht1, <- Hr1, <- Hp1. subst w2.
    destruct (config ≫= intakeBaseUrl) as [u|]; [| done].
    destruct (truthy u); [| done].
    match goal with |- context [if ?b then _ else _] => destruct b end; done. }
  rewrite <- Hs2, <- Ht2, <- Hr2, <- Hp2.
  destruct (config ≫= cacheDuration) as [d|]; [| done].
  destruct (d <? 0); done.
Qed.

(** The three variables after initialisation. *)
Lemma initializeAdsSDK_variables config w :
  API_URL (initializeAdsSDK config w) =
    match config ≫= apiUrl with
    | Some url => if truthy url then replace_trailing_slash url else API_URL w
    | None => API_URL w
    end ∧
  INTAKE_BASE_URL (initializeAdsSDK config w) =
    match config ≫= intakeBaseUrl with
    | Some url => if truthy url then replace_trailing_slash url else INTAKE_BASE_URL w
    | None => INTAKE_BASE_URL w
    end ∧
  CACHE_DURATION (initializeAdsSDK config w) =
    match config ≫= cacheDuration with
    | Some d => if d <? 0 then CACHE_DURATION w else d
    | None => CACHE_DURATION w
    end.
Proof.
  unfold initializeAdsSDK.
  set (w1 := match config ≫= apiUrl with Some _ => _ | None => _ end).
  set (w2 := match config ≫= intakeBaseUrl with Some _ => _ | None => _ end).
  assert (API_URL w1 = match config ≫= apiUrl with
                       | Some url => if truthy url then replace_trailing_slash url
                                     else API_URL w
                       | None => API_URL w
                       end ∧
          INTAKE_BASE_URL w1 = INTAKE_BASE_URL w ∧
          CACHE_DURATION w1 = CACHE_DURATION w) as (Ha1 & Hi1 & Hd1).
  { subst w1. destruct (config ≫= apiUrl) as [u|]; [| done].
    destruct (truthy u); [| done].
    match goal with |- context [if ?b then _ else _] => destruct b end; done. }
  assert (API_URL w2 = API_URL w1 ∧
          INTAKE_BASE_URL w2 = match config ≫= intakeBaseUrl with
                               | Some url => if truthy url then replace_trailing_slash url
                                             else INTAKE_BASE_URL w
                               | None => INTAKE_BASE_URL w
                               end ∧
          CACHE_DURATION w2 = CACHE_DURATION w1) as (Ha2 & Hi2 & Hd2).
  { rewrite <- Hi1. subst w2. destruct (config ≫= intakeBaseUrl) as [u|]; [| done].
    destruct (truthy u); [| done].
    match goal with |- context [if ?b then _ else _] => destruct b end; done. }
  rewrite <- Ha1, <- Ha2, <- Hi2, <- Hd1, <- Hd2.
  destruct (config ≫= cacheDuration) as [d|]; [| done].
  destruct (d <? 0); done.
Qed.

Section Configuration.
Context `{!JSON}.

(** C7, as the code has it.  An operation reads the configuration when
    it runs: after [initializeAdsSDK] the next request goes to the
    [API_URL] of the moment, the list made from its answer composes
    every [ctaUrl] from the [INTAKE_BASE_URL] of the moment, and the next
    expiry check compares the age with the [CACHE_DURATION] of the
    moment.  A list that is already in the cache is not rebuilt:
    [getAllAds()] resolves with it as it was stored. *)
Theorem configuration_read_when_used config p w :
  let w' := initializeAdsSDK config w in
  requests (snd (refreshAds p w')) = (requests w ++ [API_URL w'])%list ∧
  (∀ svcs, remote p w' = inr svcs →
     fst (refreshAds p w') = Fulfilled (map (transformService w') svcs) ∧
     map Ad.ctaUrl (map (transformService w') svcs) =
       map (λ s, INTAKE_BASE_URL w' +:+ Service.intakeUrl s) svcs) ∧
  (∀ text t, getItem_throws p CACHE_TIMESTAMP_KEY = false →
     store w !! CACHE_TIMESTAMP_KEY = Some text → parseInt text = Some t →
     fst (isCacheExpired p w') =
       Fulfilled (CACHE_DURATION w' <? clock p (ticks w) - t)) ∧
  (∀ ads, getItem_throws p CACHE_KEY = false →
     cached_list (store w) = Some ads →
     fst (getAllAds p w') = Fulfilled ads).
Proof.
  intros w'. destruct (initializeAdsSDK_frame config w) as (Hs & Ht & Hr & Hp).
  fold w' in Hs, Ht, Hr, Hp.
  repeat split.
  - destruct (refreshAds_run p w') as (v & -> & Hrq & _). simpl. rewrite Hrq, Hr. reflexivity.
  - destruct (refreshAds_run p w') as (v & -> & _). simpl.
    match goal with Hrem : remote _ _ = _ |- _ => rewrite Hrem end. reflexivity.
  - rewrite map_map. reflexivity.
  - intros text t Hg Hl Hpi.
    destruct (isCacheExpired_run p w') as [n ->]. simpl.
    unfold verdict. rewrite Hg, Hs, Hl, Hpi, Ht.
    destruct text; [discriminate | reflexivity].
  - intros ads Hg Hc.
    destruct (getAllAds_run p w') as [v ->]. simpl.
    unfold best_known, visible_cache. rewrite Hg, Hs, Hc. reflexivity.
Qed.

End Configuration.

Lemma configuration_read_when_used_witness :
  fst (isCacheExpired (host [] [] [] 2000 FetchRejects)
         (initializeAdsSDK (Some {| apiUrl := None; intakeBaseUrl := None;
                                    cacheDuration := Some 500 |})
                           (module_loaded store_with_entry)))
    = Fulfilled true ∧
  fst (getAllAds (host [] [] [] 2000 FetchRejects)
         (initializeAdsSDK custom_intake (module_loaded store_with_entry)))
    = Fulfilled [transformService (module_loaded ∅) web_design].
Proof.
  split.
  - destruct (configuration_read_when_used
                (Some {| apiUrl := None; intakeBaseUrl := None; cacheDuration := Some 500 |})
                (host [] [] [] 2000 FetchRejects) (module_loaded store_with_entry))
      as (_ & _ & Hexp & _).
    apply (Hexp "1000" 1000); reflexivity.
  - destruct (configuration_read_when_used custom_intake
                (host [] [] [] 2000 FetchRejects) (module_loaded store_with_entry))
      as (_ & _ & _ & Hcached).
    apply Hcached; [reflexivity | vm_compute; reflexivity].
Defined.

(** C7 as the specification words it does not hold: a list fetched and
    cached under the default intake base URL is returned, after
    [initializeAdsSDK] has set another one, with the [ctaUrl] composed
    from the earlier value. *)
Lemma cached_list_keeps_earlier_intake_base :
  store (snd (getAllAds (host [] [] [] 1000 (answer_with (Some [web_design])))
                        (module_loaded ∅)))
    = store_with_entry ∧
  INTAKE_BASE_URL (initializeAdsSDK custom_intake (module_loaded store_with_entry))
    = "https://example.com" ∧
  match fst (getAllAds (host [] [] [] 2000 (answer_with (Some [web_design])))
               (initializeAdsSDK custom_intake (module_loaded store_with_entry))) with
  | Fulfilled ads => map Ad.ctaUrl ads
  | Rejected _ => []
  end = ["https://davidjgrimsley.com/services/web-design"].
Proof.
  split; [vm_compute; reflexivity |].
  split; vm_compute; reflexivity.
Qed.

(** [fallbackAds] was built when the module was loaded: after
    [initializeAdsSDK] has set another intake base URL, the fallback list
    a cold call returns still carries the initial one. *)
Lemma fallbackAds_built_at_load :
  INTAKE_BASE_URL (initializeAdsSDK custom_intake (module_loaded ∅))
    = "https://example.com" ∧
  fst (getAllAds (host [] [] [] 2000 FetchRejects)
                 (initializeAdsSDK custom_intake (module_loaded ∅)))
    = Fulfilled fallbackAds ∧
  map Ad.ctaUrl fallbackAds
    = [ "https://davidjgrimsley.com/creative-strategy";
        "https://davidjgrimsley.com/portfolio-review";
        "https://davidjgrimsley.com/brand-identity";
        "https://davidjgrimsley.com/launch-support" ].
Proof. split; [| split]; vm_compute; reflexivity. Qed.

(** * Further properties of the module *)

(** ** What a persisted list means for the calls that follow *)

Section AfterPersist.
Context `{!JSON}.

(** A store holding a complete entry written at time [t]. *)
Lemma cache_state_of_entry v ads t now (s0 : gmap string string) :
  store v = <[CACHE_TIMESTAMP_KEY := Number_toString t]>
              (<[CACHE_KEY := JSON_stringify ads]> s0) →
  JSON_stringify ads ≠ "" →
  JSON_parse (JSON_stringify ads) = ParsedAds ads →
  cache_state v now = if now - t <=? CACHE_DURATION v then Fresh ads else Stale ads.
Proof.
  intros Hs Hne Hrt. unfold cache_state, cached_list, cache_age. rewrite Hs.
  rewrite lookup_insert_ne by done. rewrite !lookup_insert_eq.
  destruct (JSON_stringify ads) eqn:E; [done |]. simpl. rewrite Hrt.
  rewrite parseInt_toString. reflexivity.
Qed.

Lemma getAllAds_after_persist q v ads t (s0 : gmap string string) :
  store v = <[CACHE_TIMESTAMP_KEY := Number_toString t]>
              (<[CACHE_KEY := JSON_stringify ads]> s0) →
  JSON_stringify ads ≠ "" →
  JSON_parse (JSON_stringify ads) = ParsedAds ads →
  getItem_throws q CACHE_KEY = false →
  getItem_throws q CACHE_TIMESTAMP_KEY = false →
  clock q (ticks v) - t <= CACHE_DURATION v →
  ∃ v', getAllAds q v = (Fulfilled ads, v') ∧
        requests v' = requests v ∧ pending v' = pending v.
Proof.
  intros Hs Hne Hrt Hg1 Hg2 Hage.
  pose proof (cache_state_of_entry v ads t (clock q (ticks v)) s0 Hs Hne Hrt) as Hst.
  destruct (clock q (ticks v) - t <=? CACHE_DURATION v) eqn:E; [| lia].
  destruct (cache_state_timed v _ ads (or_introl Hst)) as (Hc & _).
  destruct (getAllAds_serves_cache q v ads) as (v' & Hrun & Hr & Hp & _).
  - unfold visible_cache. rewrite Hg1. exact Hc.
  - eapply verdict_Fresh; eassumption.
  - exists v'. done.
Qed.

(** X1.  A cold call that fetches a list with something in it resolves
    with the transformed list and persists it; a later call on that store,
    within the cache duration of the write, resolves with the same list
    and sends no request. *)
Theorem cold_call_result_is_served_again p w s rest :
  cache_state w (clock p (ticks w)) = Absent →
  remote p w = inr (s :: rest) →
  setItem_throws p CACHE_KEY = false →
  setItem_throws p CACHE_TIMESTAMP_KEY = false →
  JSON_stringify (map (transformService w) (s :: rest)) ≠ "" →
  JSON_parse (JSON_stringify (map (transformService w) (s :: rest)))
    = ParsedAds (map (transformService w) (s :: rest)) →
  ∃ w' n,
    getAllAds p w = (Fulfilled (map (transformService w) (s :: rest)), w') ∧
    ∀ q v,
      store v = store w' →
      getItem_throws q CACHE_KEY = false →
      getItem_throws q CACHE_TIMESTAMP_KEY = false →
      clock q (ticks v) - clock p n <= CACHE_DURATION v →
      ∃ v', getAllAds q v = (Fulfilled (map (transformService w) (s :: rest)), v') ∧
            requests v' = requests v ∧ pending v' = pending v.
Proof.
  intros Hs Hr Hw1 Hw2 Hne Hrt. apply cache_state_Absent in Hs.
  assert (visible_cache p w = None) as Hcold.
  { unfold visible_cache. rewrite Hs. destruct (getItem_throws p CACHE_KEY); reflexivity. }
  destruct (getAllAds_cold p w Hcold) as (w' & n & Hrun & _ & _ & _ & Hst).
  unfold best_known in Hrun. rewrite Hcold, Hr in Hrun. rewrite Hr in Hst.
  unfold persisted in Hst. rewrite Hw1, Hw2 in Hst. simpl in Hst.
  exists w', n. split; [exact Hrun |].
  intros q v Hv Hg1 Hg2 Hage.
  eapply getAllAds_after_persist; try eassumption. rewrite Hv. exact Hst.
Qed.



End AfterPersist.

(** ** Payloads without a usable timestamp, repeated calls, refused writes *)

Section EdgeCases.
Context `{!JSON}.

(** X4.  A cached list whose timestamp does not start with a number never
    expires: whatever the clock and the cache duration, [getAllAds()]
    resolves with the cached list and sends no request. *)
Theorem unreadable_timestamp_never_expires p w ads text :
  getItem_throws p CACHE_KEY = false →
  getItem_throws p CACHE_TIMESTAMP_KEY = false →
  cached_list (store w) = Some ads →
  store w !! CACHE_TIMESTAMP_KEY = Some text →
  text ≠ "" →
  parseInt text = None →
  ∃ w', getAllAds p w = (Fulfilled ads, w') ∧
        requests w' = requests w ∧ pending w' = pending w ∧
        store w' = store w.
Proof.
  intros Hg1 Hg2 Hc Ht Hne Hp.
  destruct (getAllAds_serves_cache p w ads) as (w' & Hrun & Hr & Hpd & Hs & _).
  - unfold visible_cache. rewrite Hg1. exact Hc.
  - unfold verdict. rewrite Hg2, Ht, Hp. destruct text; [done | reflexivity].
  - exists w'. done.
Qed.

(** X5.  A cached list whose timestamp is missing, empty, or cannot be
    read is treated as expired: [getAllAds()] resolves with the cached
    list, sends one request and leaves one background refresh behind. *)
Theorem missing_timestamp_is_stale p w ads :
  getItem_throws p CACHE_KEY = false →
  cached_list (store w) = Some ads →
  getItem_throws p CACHE_TIMESTAMP_KEY = true ∨
  store w !! CACHE_TIMESTAMP_KEY = None ∨
  store w !! CACHE_TIMESTAMP_KEY = Some "" →
  ∃ w', getAllAds p w = (Fulfilled ads, w') ∧
        requests w' = (requests w ++ [API_URL w])%list ∧
        pending w' = (pending w ++ [BackgroundRefresh (endpoint p (API_URL w))])%list ∧
        store w' = store w.
Proof.
  intros Hg1 Hc Hts.
  destruct (getAllAds_revalidates p w ads) as (w' & Hrun & Hr & Hpd & Hs & _).
  - unfold visible_cache. rewrite Hg1. exact Hc.
  - unfold verdict. destruct (getItem_throws p CACHE_TIMESTAMP_KEY); [reflexivity |].
    destruct Hts as [Hf | [-> | ->]]; [discriminate | reflexivity | reflexivity].
  - exists w'. done.
Qed.

(** X6.  Background refreshes are not shared: a second call made while the
    entry is still stale and the first refresh has not been delivered
    sends a second request and queues a second refresh. *)
Theorem stale_calls_each_send_a_request p q w ads :
  getItem_throws p CACHE_KEY = false →
  getItem_throws q CACHE_KEY = false →
  cache_state w (clock p (ticks w)) = Stale ads →
  (∀ n, cache_state w (clock q n) = Stale ads) →
  ∃ w' w'',
    getAllAds p w = (Fulfilled ads, w') ∧
    getAllAds q w' = (Fulfilled ads, w'') ∧
    requests w'' = (requests w ++ [API_URL w; API_URL w])%list ∧
    pending w'' = (pending w ++ [BackgroundRefresh (endpoint p (API_URL w));
                                 BackgroundRefresh (endpoint q (API_URL w))])%list.
Proof.
  intros Hg1 Hg2 Hs1 Hs2.
  destruct (cache_state_timed w _ ads (or_intror Hs1)) as (Hc & _).
  destruct (getAllAds_revalidates p w ads) as (w' & Hrun & Hr & Hpd & Hst & Ha & _ & Hd).
  { unfold visible_cache. rewrite Hg1. exact Hc. }
  { eapply verdict_Stale; eassumption. }
  assert (cache_state w' (clock q (ticks w')) = Stale ads) as Hs'.
  { rewrite <- (Hs2 (ticks w')). unfold cache_state. rewrite Hst, Hd. reflexivity. }
  destruct (getAllAds_revalidates q w' ads) as (w'' & Hrun' & Hr' & Hpd' & _).
  { unfold visible_cache. rewrite Hg2, Hst. exact Hc. }
  { eapply verdict_Stale; eassumption. }
  exists w', w''. split; [exact Hrun |]. split; [exact Hrun' |].
  rewrite Hr', Hpd', Hr, Hpd, <- Ha, <- !app_assoc. done.
Qed.

(** X7.  When the store refuses the payload write, a cold call still
    resolves with the fetched list, nothing is stored, and the cache stays
    absent: the next call is a cold call again. *)
Theorem refused_write_keeps_cache_cold p w s rest :
  cache_state w (clock p (ticks w)) = Absent →
  remote p w = inr (s :: rest) →
  setItem_throws p CACHE_KEY = true →
  ∃ w', getAllAds p w = (Fulfilled (map (transformService w) (s :: rest)), w') ∧
        store w' = store w ∧
        ∀ now, cache_state w' now = Absent.
Proof.
  intros Hs Hr Hw. apply cache_state_Absent in Hs.
  assert (visible_cache p w = None) as Hcold.
  { unfold visible_cache. rewrite Hs. destruct (getItem_throws p CACHE_KEY); reflexivity. }
  destruct (getAllAds_cold p w Hcold) as (w' & n & Hrun & _ & _ & _ & Hst).
  unfold best_known in Hrun. rewrite Hcold, Hr in Hrun. rewrite Hr in Hst.
  unfold persisted in Hst. rewrite Hw in Hst.
  exists w'. split; [exact Hrun |]. split; [exact Hst |].
  intros now. apply cache_state_Absent. rewrite Hst. exact Hs.
Qed.

(** X8.  The persist step is not atomic.  When the payload write succeeds
    and the timestamp write throws, [setCachedAds] resolves all the same,
    the payload key holds the new list and the timestamp key is as it
    was. *)
Theorem setCachedAds_can_write_half ads p w :
  setItem_throws p CACHE_KEY = false →
  setItem_throws p CACHE_TIMESTAMP_KEY = true →
  ∃ w', setCachedAds ads p w = (Fulfilled tt, w') ∧
        store w' !! CACHE_KEY = Some (JSON_stringify ads) ∧
        store w' !! CACHE_TIMESTAMP_KEY = store w !! CACHE_TIMESTAMP_KEY.
Proof.
  intros Hw1 Hw2.
  destruct (setCachedAds_run ads p w) as (w' & Hrun & Hst & _).
  unfold persisted in Hst. rewrite Hw1, Hw2 in Hst.
  exists w'. split; [exact Hrun |]. rewrite Hst.
  rewrite lookup_insert_eq. rewrite lookup_insert_ne by done. done.
Qed.

End EdgeCases.

(** ** The module keeps to its own two keys of the shared store *)

Section Confinement.
Context `{!JSON}.

Lemma confined_ret {A} (a : A) : confined (mret a).
Proof. intros p w key _ _. reflexivity. Qed.

Lemma confined_throw {A} e : confined (@throw A e).
Proof. intros p w key _ _. reflexivity. Qed.

Lemma confined_bind {A B} (m : Async A) (k : A → Async B) :
  confined m → (∀ a, confined (k a)) → confined (m ≫= k).
Proof.
  intros Hm Hk p w key H1 H2. unfold mbind, Async_bind.
  specialize (Hm p w key H1 H2).
  destruct (m p w) as [[a|e] w']; simpl in *; [| exact Hm].
  rewrite <- Hm. apply Hk; assumption.
Qed.

Lemma confined_try_catch {A} (m : Async A) (h : Exn → Async A) :
  confined m → (∀ e, confined (h e)) → confined (try_catch m h).
Proof.
  intros Hm Hh p w key H1 H2. unfold try_catch.
  specialize (Hm p w key H1 H2).
  destruct (m p w) as [[a|e] w']; simpl in *; [exact Hm |].
  rewrite <- Hm. apply Hh; assumption.
Qed.

Lemma confined_setItem key value :
  key = CACHE_KEY ∨ key = CACHE_TIMESTAMP_KEY → confined (storage.setItem key value).
Proof.
  intros Hkey p w k H1 H2. unfold storage.setItem.
  destruct (setItem_throws p key); [reflexivity |]. simpl.
  apply lookup_insert_ne. destruct Hkey; congruence.
Qed.

Lemma confined_removeItem key :
  key = CACHE_KEY ∨ key = CACHE_TIMESTAMP_KEY → confined (storage.removeItem key).
Proof.
  intros Hkey p w k H1 H2. unfold storage.removeItem.
  destruct (removeItem_throws p key); [reflexivity |]. simpl.
  apply lookup_delete_ne. destruct Hkey; congruence.
Qed.

Lemma confined_getItem key : confined (storage.getItem key).
Proof.
  intros p w k _ _. unfold storage.getItem.
  destruct (getItem_throws p key); reflexivity.
Qed.

Lemma confined_console_error msg e : confined (console_error msg e).
Proof. intros p w k _ _. reflexivity. Qed.

Lemma confined_Date_now : confined Date_now.
Proof. intros p w k _ _. reflexivity. Qed.

Lemma confined_read {A} (f : World → A) : confined (read f).
Proof. intros p w k _ _. reflexivity. Qed.

Lemma confined_getCachedAds : confined getCachedAds.
Proof.
  unfold getCachedAds. apply confined_try_catch.
  - apply confined_bind; [apply confined_getItem |].
    intros [text|]; [| apply confined_ret].
    destruct (negb (truthy text)); [apply confined_ret |].
    destruct (JSON_parse text); first [apply confined_ret | apply confined_throw].
  - intros e. apply confined_bind; [apply confined_console_error |].
    intros _. apply confined_ret.
Qed.

Lemma confined_isCacheExpired : confined isCacheExpired.
Proof.
  unfold isCacheExpired. apply confined_try_catch; [| intros _; apply confined_ret].
  apply confined_bind; [apply confined_getItem |].
  intros [text|]; [| apply confined_ret].
  destruct (negb (truthy text)); [apply confined_ret |].
  apply confined_bind; [apply confined_Date_now |]. intros now.
  apply confined_bind; [apply confined_read |]. intros d.
  destruct (parseInt text); apply confined_ret.
Qed.

Lemma confined_setCachedAds ads : confined (setCachedAds ads).
Proof.
  unfold setCachedAds. apply confined_try_catch.
  - apply confined_bind; [apply confined_setItem; by left |]. intros _.
    apply confined_bind; [apply confined_Date_now |]. intros now.
    apply confined_setItem. by right.
  - intros e. apply confined_console_error.
Qed.

Lemma confined_fetchAdsFromAPI : confined fetchAdsFromAPI.
Proof. intros p w k _ _. rewrite fetchAdsFromAPI_run. reflexivity. Qed.

Lemma confined_fetch_resume o : confined (fetch_resume o).
Proof. intros p w k _ _. rewrite fetch_resume_run. reflexivity. Qed.

Lemma confined_getAllAds : confined getAllAds.
Proof.
  unfold getAllAds.
  apply confined_bind; [apply confined_getCachedAds |]. intros cachedAds.
  apply confined_bind; [apply confined_isCacheExpired |]. intros cacheExpired.
  destruct cachedAds as [ads|].
  - destruct (negb cacheExpired); [apply confined_ret |].
    apply confined_bind; [intros p w k _ _; reflexivity |]. intros o.
    apply confined_bind; [intros p w k _ _; reflexivity |]. intros _.
    apply confined_ret.
  - apply confined_try_catch.
    + apply confined_bind; [apply confined_fetchAdsFromAPI |]. intros freshAds.
      apply confined_bind; [apply confined_setCachedAds |]. intros _.
      apply confined_ret.
    + intros e. apply confined_bind; [apply confined_console_error |].
      intros _. apply confined_ret.
Qed.

Lemma confined_getAdById id : confined (getAdById id).
Proof.
  unfold getAdById. apply confined_bind; [apply confined_getAllAds |].
  intros ads. apply confined_ret.
Qed.

Lemma confined_getRandomAd r : confined (getRandomAd r).
Proof.
  unfold getRandomAd. apply confined_bind; [apply confined_getAllAds |].
  intros ads. destruct (Nat.eqb (length ads) 0); apply confined_ret.
Qed.

(** X9.  Whatever the host does, the operations of the module leave every
    key of the store other than the payload key and the timestamp key as
    they find it: [getAllAds], [refreshAds], [clearAdsCache], [getAdById],
    [getRandomAd], the component's [loadAd] and a delivered background
    refresh. *)
Theorem operations_keep_to_their_keys p w key :
  key ≠ CACHE_KEY → key ≠ CACHE_TIMESTAMP_KEY →
  store (snd (getAllAds p w)) !! key = store w !! key ∧
  store (snd (refreshAds p w)) !! key = store w !! key ∧
  store (snd (clearAdsCache p w)) !! key = store w !! key ∧
  (∀ id, store (snd (getAdById id p w)) !! key = store w !! key) ∧
  (∀ r, store (snd (getRandomAd r p w)) !! key = store w !! key) ∧
  (∀ adId r, store (snd (loadAd adId r p w)) !! key = store w !! key) ∧
  (∀ t, store (snd (run_task t p w)) !! key = store w !! key).
Proof.
  intros H1 H2. repeat split.
  - apply confined_getAllAds; assumption.
  - revert p w key H1 H2. change (confined refreshAds). unfold refreshAds.
    apply confined_bind; [apply confined_fetchAdsFromAPI |]. intros freshAds.
    apply confined_bind; [apply confined_setCachedAds |]. intros _.
    apply confined_ret.
  - revert p w key H1 H2. change (confined clearAdsCache). unfold clearAdsCache.
    apply confined_bind; [apply confined_removeItem; by left |]. intros _.
    apply confined_removeItem. by right.
  - intros id. apply confined_getAdById; assumption.
  - intros r. apply confined_getRandomAd; assumption.
  - intros adId r. revert p w key H1 H2. change (confined (loadAd adId r)).
    unfold loadAd. apply confined_try_catch.
    + apply confined_bind.
      * destruct adId as [id|]; [| apply confined_ret].
        destruct (truthy id); [apply confined_getAdById | apply confined_ret].
      * intros [ad|]; [apply confined_ret | apply confined_getRandomAd].
    + intros e. apply confined_bind; [intros p w k _ _; reflexivity |].
      intros _. apply confined_ret.
  - intros [o]. revert p w key H1 H2. change (confined (run_task (BackgroundRefresh o))).
    unfold run_task. apply confined_try_catch.
    + apply confined_bind; [apply confined_fetch_resume |]. intros ads.
      apply confined_setCachedAds.
    + intros e. apply confined_console_error.
Qed.

End Confinement.

(** ** What initialisation does and does not do *)

Lemma replace_trailing_slash_app s :
  replace_trailing_slash (s +:+ "/") = s.
Proof.
  induction s as [|c s IH]; [reflexivity |].
  simpl. destruct s as [|c' s']; [reflexivity |].
  simpl in *. rewrite IH. reflexivity.
Qed.

Lemma truthy_app_slash s : truthy (s +:+ "/") = true.
Proof. destruct s; reflexivity. Qed.

(** X10.  A configuration that brings no value (no field, or empty
    strings for the URLs) leaves the module exactly as it was. *)
Theorem initializeAdsSDK_without_values config w :
  (∀ url, config ≫= apiUrl = Some url → url = "") →
  (∀ url, config ≫= intakeBaseUrl = Some url → url = "") →
  config ≫= cacheDuration = None →
  initializeAdsSDK config w = w.
Proof.
  intros Ha Hi Hd. unfold initializeAdsSDK. rewrite Hd.
  destruct (config ≫= apiUrl) as [u|].
  - rewrite (Ha u eq_refl). simpl.
    destruct (config ≫= intakeBaseUrl) as [i|]; [| reflexivity].
    rewrite (Hi i eq_refl). reflexivity.
  - destruct (config ≫= intakeBaseUrl) as [i|]; [| reflexivity].
    rewrite (Hi i eq_refl). reflexivity.
Qed.

(** X11.  A negative cache duration is refused: the duration in force
    stays and a warning is the last thing logged.  Zero and every positive
    duration are taken as they are. *)
Theorem initializeAdsSDK_cache_duration config w d :
  config ≫= cacheDuration = Some d →
  (d < 0 →
     CACHE_DURATION (initializeAdsSDK config w) = CACHE_DURATION w ∧
     last (console (initializeAdsSDK config w))
       = Some (Warn "[AdsSDK] cacheDuration should be positive")) ∧
  (0 <= d → CACHE_DURATION (initializeAdsSDK config w) = d).
Proof.
  intros Hd. destruct (initializeAdsSDK_variables config w) as (_ & _ & Hv).
  rewrite Hd in Hv. split.
  - intros Hneg. assert ((d <? 0) = true) as E by lia. rewrite E in Hv.
    split; [exact Hv |].
    unfold initializeAdsSDK. rewrite Hd, E. unfold console_warn. simpl.
    apply last_snoc.
  - intros Hpos. assert ((d <? 0) = false) as E by lia. rewrite E in Hv. exact Hv.
Qed.

(** X12.  The validation of a URL only warns: a non-empty [apiUrl] that
    starts with neither [http://] nor [https://] is stored all the same,
    less one trailing slash, and the warning is logged. *)
Theorem initializeAdsSDK_warns_but_sets config w url :
  config ≫= apiUrl = Some url →
  url ≠ "" →
  startsWith url "http://" = false →
  startsWith url "https://" = false →
  API_URL (initializeAdsSDK config w) = replace_trailing_slash url ∧
  Warn "[AdsSDK] apiUrl should start with http:// or https://"
    ∈ console (initializeAdsSDK config w).
Proof.
  intros Hu Hne H1 H2.
  destruct (initializeAdsSDK_variables config w) as (Hv & _ & _).
  rewrite Hu in Hv. assert (truthy url = true) as Ht by (destruct url; done).
  rewrite Ht in Hv. split; [exact Hv |].
  unfold initializeAdsSDK. rewrite Hu, Ht, H1, H2. simpl.
  set (w1 := set_API_URL _ _).
  assert (Warn "[AdsSDK] apiUrl should start with http:// or https://" ∈ console w1) as Hin.
  { subst w1. unfold console_warn. simpl. set_solver. }
  clearbody w1.
  set (w2 := match config ≫= intakeBaseUrl with Some _ => _ | None => _ end).
  assert (Warn "[AdsSDK] apiUrl should start with http:// or https://" ∈ console w2) as Hin2.
  { subst w2. destruct (config ≫= intakeBaseUrl) as [i|]; [| exact Hin].
    destruct (truthy i); [| exact Hin].
    match goal with |- context [if ?b then _ else _] => destruct b end;
      unfold console_warn; simpl; set_solver. }
  clearbody w2.
  destruct (config ≫= cacheDuration) as [d|]; [| exact Hin2].
  destruct (d <? 0); unfold console_warn; simpl; set_solver.
Qed.

(** X13.  A trailing slash of the configured intake base URL is dropped,
    so that a base given as [base/] and an [intakeUrl] starting with a
    slash compose to [base] followed by the [intakeUrl], without a double
    slash. *)
Theorem trailing_slash_is_dropped_before_composition config w base service :
  config ≫= intakeBaseUrl = Some (base +:+ "/") →
  INTAKE_BASE_URL (initializeAdsSDK config w) = base ∧
  Ad.ctaUrl (transformService (initializeAdsSDK config w) service)
    = base +:+ Service.intakeUrl service.
Proof.
  intros Hi. destruct (initializeAdsSDK_variables config w) as (_ & Hv & _).
  rewrite Hi, truthy_app_slash, replace_trailing_slash_app in Hv.
  split; [exact Hv |]. unfold transformService. simpl. rewrite Hv. reflexivity.
Qed.

(** X14.  Initialisation only configures: it leaves the store, the clock
    and the pending refreshes alone, sends no request, and only adds to
    the end of the console. *)
Theorem initializeAdsSDK_only_configures config w :
  store (initializeAdsSDK config w) = store w ∧
  requests (initializeAdsSDK config w) = requests w ∧
  pending (initializeAdsSDK config w) = pending w ∧
  ticks (initializeAdsSDK config w) = ticks w ∧
  console w `prefix_of` console (initializeAdsSDK config w).
Proof.
  destruct (initializeAdsSDK_frame config w) as (Hs & Ht & Hr & Hp).
  repeat (split; [assumption |]).
  unfold initializeAdsSDK.
  set (w1 := match config ≫= apiUrl with Some _ => _ | None => _ end).
  set (w2 := match config ≫= intakeBaseUrl with Some _ => _ | None => _ end).
  assert (console w `prefix_of` console w1) as H1.
  { subst w1. destruct (config ≫= apiUrl) as [u|]; [| done].
    destruct (truthy u); [| done].
    match goal with |- context [if ?b then _ else _] => destruct b end;
      unfold console_warn; simpl; [apply prefix_app_r |]; done. }
  assert (console w1 `prefix_of` console w2) as H2.
  { subst w2. destruct (config ≫= intakeBaseUrl) as [u|]; [| done].
    destruct (truthy u); [| done].
    match goal with |- context [if ?b then _ else _] => destruct b end;
      unfold console_warn; simpl; [apply prefix_app_r |]; done. }
  etrans; [exact H1 |]. etrans; [exact H2 |].
  destruct (config ≫= cacheDuration) as [d|]; [| done].
  destruct (d <? 0); unfold console_warn; simpl; [apply prefix_app_r |]; done.
Qed.

(** ** The timestamp *)

(** X15.  The text [setCachedAds] writes for a time is read back by
    [isCacheExpired] as that very time, and it is never the empty text
    that would count as a missing timestamp. *)
Theorem timestamp_reads_back t :
  parseInt (Number_toString t) = Some t ∧ Number_toString t ≠ "".
Proof.
  split; [apply parseInt_toString |].
  pose proof (truthy_toString t) as H. intros E. rewrite E in H. discriminate.
Qed.

(** ** Queries on top of [getAllAds] *)

Lemma find_first_match {A} (f : A → bool) (l : list A) :
  match find f l with
  | Some x => ∃ l1 l2, l = (l1 ++ x :: l2)%list ∧ f x = true ∧
                       ∀ y, y ∈ l1 → f y = false
  | None => ∀ y, y ∈ l → f y = false
  end.
Proof.
  induction l as [|a l IH]; simpl.
  - intros y Hy. inversion Hy.
  - destruct (f a) eqn:E.
    + exists [], l. repeat split; [exact E |]. intros y Hy. inversion Hy.
    + destruct (find f l) as [x|].
      * destruct IH as (l1 & l2 & -> & Hx & Hl1).
        exists (a :: l1), l2. repeat split; [exact Hx |].
        intros y Hy. apply elem_of_cons in Hy as [-> | Hy]; [exact E | exact (Hl1 y Hy)].
      * intros y Hy. apply elem_of_cons in Hy as [-> | Hy]; [exact E | exact (IH y Hy)].
Qed.

Lemma random_index_in_range (r : Q) (n : nat) :
  (0 <= r)%Q → (r < 1)%Q → (0 < n)%nat →
  0 <= Qfloor (r * inject_Z (Z.of_nat n)) < Z.of_nat n.
Proof.
  intros H0 H1 Hn.
  assert (0 < inject_Z (Z.of_nat n))%Q as Hpos.
  { change 0%Q with (inject_Z 0). rewrite <- Zlt_Qlt. lia. }
  split.
  - change 0 with (Qfloor (inject_Z 0)). apply Qfloor_resp_le.
    change (inject_Z 0) with 0%Q. apply Qmult_le_0_compat; [exact H0 |].
    apply Qlt_le_weak, Hpos.
  - rewrite Zlt_Qlt. eapply Qle_lt_trans; [apply Qfloor_le |].
    rewrite <- (Qmult_1_l (inject_Z (Z.of_nat n))) at 2.
    apply Qmult_lt_compat_r; assumption.
Qed.

Lemma random_pick_in_list {A} (r : Q) (l : list A) :
  (0 <= r)%Q → (r < 1)%Q → l ≠ [] →
  ∃ x, (if Nat.eqb (length l) 0 then None
        else if Qfloor (r * inject_Z (Z.of_nat (length l))) <? 0 then None
             else l !! Z.to_nat (Qfloor (r * inject_Z (Z.of_nat (length l)))))
       = Some x ∧ x ∈ l.
Proof.
  intros H0 H1 Hl.
  assert (0 < length l)%nat as Hn by (destruct l; [done | simpl; lia]).
  destruct (random_index_in_range r (length l) H0 H1 Hn) as [Hlo Hhi].
  replace (Nat.eqb (length l) 0) with false by (symmetry; apply Nat.eqb_neq; lia).
  destruct (Qfloor (r * inject_Z (Z.of_nat (length l))) <? 0) eqn:E0; [lia |].
  destruct (lookup_lt_is_Some_2 l (Z.to_nat (Qfloor (r * inject_Z (Z.of_nat (length l))))))
    as [x Hx]; [lia |].
  exists x. split; [exact Hx |]. eapply list_elem_of_lookup_2, Hx.
Qed.

Section Queries.
Context `{!JSON}.

(** X16.  When the payload key cannot be read, is missing or empty, or
    holds a list of ads, [getAdById] resolves.  It resolves with the first
    ad of the list [getAllAds] settles on whose id is the one asked for,
    and with nothing exactly when no ad of that list has that id. *)
Theorem getAdById_first_match id p w :
  typed_cache p w →
  ∃ found w',
    getAdById id p w = (Fulfilled found, w') ∧
    match found with
    | Some ad =>
        Ad.id ad = id ∧
        ∃ before after,
          best_known p w = (before ++ ad :: after)%list ∧
          ∀ other, other ∈ before → Ad.id other ≠ id
    | None => ∀ other, other ∈ best_known p w → Ad.id other ≠ id
    end.
Proof.
  intros _. unfold getAdById, mbind, Async_bind.
  destruct (getAllAds_run p w) as [w' ->].
  eexists _, w'. split; [reflexivity |].
  pose proof (find_first_match (λ ad, String.eqb (Ad.id ad) id) (best_known p w)) as Hf.
  destruct (find _ (best_known p w)) as [ad|].
  - destruct Hf as (l1 & l2 & Hl & Hid & Hb).
    split; [apply String.eqb_eq, Hid |].
    exists l1, l2. split; [exact Hl |].
    intros other Ho. apply String.eqb_neq, Hb, Ho.
  - intros other Ho. apply String.eqb_neq, Hf, Ho.
Qed.

Lemma getRandomAd_run r p w :
  ∃ w', getAllAds p w = (Fulfilled (best_known p w), w') ∧
        getRandomAd r p w =
          (Fulfilled
             (if Nat.eqb (length (best_known p w)) 0 then None
              else if Qfloor (r * inject_Z (Z.of_nat (length (best_known p w)))) <? 0
                   then None
                   else best_known p w
                          !! Z.to_nat (Qfloor (r * inject_Z
                                                     (Z.of_nat (length (best_known p w)))))),
           w').
Proof.
  unfold getRandomAd, mbind, Async_bind.
  destruct (getAllAds_run p w) as [w' Hrun]. rewrite Hrun.
  exists w'. split; [reflexivity |].
  destruct (Nat.eqb (length (best_known p w)) 0); reflexivity.
Qed.

(** X17.  [getRandomAd] never rejects.  With the random number in the
    range from 0 up to, not including, 1, it resolves with nothing when
    the list [getAllAds] settles on is empty, and with an ad of that list
    otherwise. *)
Theorem getRandomAd_picks_from_the_list r p w :
  (0 <= r)%Q → (r < 1)%Q →
  ∃ picked w',
    getRandomAd r p w = (Fulfilled picked, w') ∧
    match best_known p w with
    | [] => picked = None
    | _ :: _ => ∃ ad, picked = Some ad ∧ ad ∈ best_known p w
    end.
Proof.
  intros H0 H1. destruct (getRandomAd_run r p w) as (w' & _ & ->).
  eexists _, w'. split; [reflexivity |].
  destruct (best_known p w) as [|a l] eqn:E; [reflexivity |].
  apply random_pick_in_list; done.
Qed.

(** X21.  [getAllAds()] resolves with an empty list in one case only:
    when the visible cache holds an empty list.  [getRandomAd] then
    resolves with nothing, although the fallback list is not empty. *)
Theorem empty_result_only_from_cache r p w :
  (fst (getAllAds p w) = Fulfilled [] ↔ visible_cache p w = Some []) ∧
  (visible_cache p w = Some [] → fst (getRandomAd r p w) = Fulfilled None).
Proof.
  assert (best_known p w = [] ↔ visible_cache p w = Some []) as Hiff.
  { unfold best_known. destruct (visible_cache p w) as [cached|].
    - split; [intros -> | intros [= ->]]; reflexivity.
    - destruct (remote p w) as [e|[|s rest]]; split; discriminate. }
  split.
  - destruct (getAllAds_run p w) as [w' ->]. simpl. rewrite <- Hiff.
    split; [intros [= ->] | intros ->]; reflexivity.
  - intros Hv. apply Hiff in Hv.
    destruct (getRandomAd_run r p w) as (w' & _ & ->). simpl. rewrite Hv. reflexivity.
Qed.

(** X18.  A response whose status is outside 200-299 is a failure even
    when its body is a well-formed payload: the body is not used, a forced
    refresh rejects with the status, and a cold call falls back to the
    static list and stores nothing. *)
Theorem error_status_discards_the_payload p w r :
  endpoint p (API_URL w) = FetchResponds r →
  ok r = false →
  fst (refreshAds p w) = Rejected (ApiError (status r)) ∧
  store (snd (refreshAds p w)) = store w ∧
  (cached_list (store w) = None →
   fst (getAllAds p w) = Fulfilled fallbackAds ∧
   store (snd (getAllAds p w)) = store w).
Proof.
  intros He Hok.
  assert (remote p w = inl (ApiError (status r))) as Hr.
  { unfold remote, content_of. rewrite He, Hok. reflexivity. }
  destruct (refreshAds_run p w) as (w' & -> & _ & Hs). rewrite Hr in *.
  split; [reflexivity |]. split; [exact Hs |].
  intros Hc.
  assert (visible_cache p w = None) as Hcold.
  { unfold visible_cache. rewrite Hc. destruct (getItem_throws p CACHE_KEY); reflexivity. }
  destruct (getAllAds_cold p w Hcold) as (v & n & -> & _ & _ & _ & Hst).
  unfold best_known. rewrite Hcold, Hr in *. done.
Qed.

(** X19.  When the payload key cannot be read, is missing or empty, or
    holds a list of ads, the component's [loadAd] does not reach its
    [catch] and resolves.  Without an [adId], or with an empty one, it is
    one [getRandomAd]; with an [adId] that [getAdById] finds, it is that
    one lookup; with an [adId] that is not found, [getRandomAd] runs after
    the lookup, which makes a second [getAllAds]. *)
Theorem loadAd_is_lookup_then_random adId r p w :
  typed_cache p w →
  (∃ ad w', loadAd adId r p w = (Fulfilled ad, w')) ∧
  (adId = None ∨ adId = Some "" → loadAd adId r p w = getRandomAd r p w) ∧
  (∀ id, adId = Some id → id ≠ "" →
     match getAdById id p w with
     | (Fulfilled (Some ad), w1) => loadAd adId r p w = (Fulfilled (Some ad), w1)
     | (Fulfilled None, w1) => loadAd adId r p w = getRandomAd r p w1
     | (Rejected _, _) => False
     end).
Proof.
  intros _.
  assert (∀ v, ∃ x v', getRandomAd r p v = (Fulfilled x, v')) as Hrand.
  { intros v. destruct (getRandomAd_run r p v) as (v' & _ & ->). eauto. }
  assert (∀ v, loadAd None r p v = getRandomAd r p v) as Hnone.
  { intros v. unfold loadAd, try_catch, mbind, Async_bind, mret, Async_ret.
    destruct (Hrand v) as (x & v' & ->). reflexivity. }
  assert (loadAd (Some "") r p w = getRandomAd r p w) as Hempty.
  { unfold loadAd, try_catch, mbind, Async_bind, mret, Async_ret. simpl.
    destruct (Hrand w) as (x & v' & ->). reflexivity. }
  assert (∀ id, id ≠ "" →
     match getAdById id p w with
     | (Fulfilled (Some ad), w1) => loadAd (Some id) r p w = (Fulfilled (Some ad), w1)
     | (Fulfilled None, w1) => loadAd (Some id) r p w = getRandomAd r p w1
     | (Rejected _, _) => False
     end) as Hsome.
  { intros id Hid. assert (truthy id = true) as Ht by (destruct id; done).
    unfold loadAd, try_catch, mbind, Async_bind, mret, Async_ret. rewrite Ht.
    assert (∃ found w1, getAdById id p w = (Fulfilled found, w1)) as (found & w1 & Hget).
    { unfold getAdById, mbind, Async_bind.
      destruct (getAllAds_run p w) as [w1 ->]. eauto. }
    rewrite Hget. destruct found as [ad|]; [reflexivity |].
    destruct (Hrand w1) as (x & v' & ->). reflexivity. }
  split; [| split].
  - destruct adId as [id|]; [| rewrite Hnone; apply Hrand].
    destruct (decide (id = "")) as [-> | Hid]; [rewrite Hempty; apply Hrand |].
    specialize (Hsome id Hid).
    destruct (getAdById id p w) as [[[ad|]|e] w1]; [eauto | | done].
    rewrite Hsome. apply Hrand.
  - intros [-> | ->]; [apply Hnone | exact Hempty].
  - intros id -> Hid. apply Hsome, Hid.
Qed.

(** X20.  A banner asking for an id that is not in the list makes two
    calls of [getAllAds]: on an absent cache with a failing remote source
    it sends two requests before it shows one of the fallback ads. *)
Theorem unknown_id_costs_two_requests id r p w e :
  (0 <= r)%Q → (r < 1)%Q →
  id ≠ "" →
  (∀ ad, ad ∈ fallbackAds → Ad.id ad ≠ id) →
  cached_list (store w) = None →
  remote p w = inl e →
  ∃ ad w',
    loadAd (Some id) r p w = (Fulfilled (Some ad), w') ∧
    ad ∈ fallbackAds ∧
    requests w' = (requests w ++ [API_URL w; API_URL w])%list.
Proof.
  intros H0 H1 Hid Hnew Hc Hr.
  assert (∀ v, store v = store w → API_URL v = API_URL w →
               visible_cache p v = None ∧ best_known p v = fallbackAds) as Hcold.
  { intros v Hs Ha.
    assert (visible_cache p v = None) as Hv.
    { unfold visible_cache. rewrite Hs, Hc.
      destruct (getItem_throws p CACHE_KEY); reflexivity. }
    split; [exact Hv |]. unfold best_known, remote. rewrite Hv, Ha.
    unfold remote in Hr. rewrite Hr. reflexivity. }
  destruct (Hcold w eq_refl eq_refl) as [Hv Hb].
  destruct (getAllAds_cold p w Hv) as (w1 & n & Hrun & Hrq & _ & (Ha & _) & Hst).
  rewrite Hb in Hrun. rewrite Hr in Hst.
  assert (getAdById id p w = (Fulfilled None, w1)) as Hget.
  { unfold getAdById, mbind, Async_bind, mret, Async_ret. rewrite Hrun. do 2 f_equal.
    pose proof (find_first_match (λ ad, String.eqb (Ad.id ad) id) fallbackAds) as Hf.
    destruct (find _ fallbackAds) as [ad|]; [| reflexivity].
    destruct Hf as (l1 & l2 & Hl & Heq & _). apply String.eqb_eq in Heq.
    exfalso. apply (Hnew ad); [| exact Heq]. rewrite Hl.
    apply list_elem_of_In, in_elt. }
  destruct (Hcold w1 Hst (eq_sym Ha)) as [Hv1 Hb1].
  destruct (getAllAds_cold p w1 Hv1) as (w2 & n2 & Hrun2 & Hrq2 & _).
  destruct (getRandomAd_run r p w1) as (w2' & Hrun2' & Hrand).
  rewrite Hrun2 in Hrun2'. injection Hrun2' as <-.
  rewrite Hb1 in Hrand.
  destruct (random_pick_in_list r fallbackAds H0 H1) as (ad & Hpick & Hin); [done |].
  rewrite Hpick in Hrand.
  exists ad, w2. split; [| split; [exact Hin |]].
  - unfold loadAd, try_catch, mbind, Async_bind, mret, Async_ret.
    assert (truthy id = true) as -> by (destruct id; done).
    rewrite Hget, Hrand. reflexivity.
  - rewrite Hrq2, Hrq, <- Ha, <- app_assoc. reflexivity.
Qed.

End Queries.

(** ** The further properties on concrete hosts *)

Lemma cold_call_result_is_served_again_witness :
  ∃ w' v',
    getAllAds (host [] [] [] 1000 (answer_with (Some [web_design; tutoring])))
              (module_loaded ∅)
      = (Fulfilled (map (transformService (module_loaded ∅)) [web_design; tutoring]), w') ∧
    getAllAds (host [] [] [] 5000 FetchRejects) (module_loaded (store w'))
      = (Fulfilled (map (transformService (module_loaded ∅)) [web_design; tutoring]), v') ∧
    requests v' = [].
Proof.
  destruct (cold_call_result_is_served_again
              (host [] [] [] 1000 (answer_with (Some [web_design; tutoring])))
              (module_loaded ∅) web_design [tutoring])
    as (w' & n & Hrun & Hnext);
    [ reflexivity | reflexivity | reflexivity | reflexivity
    | vm_compute; discriminate | vm_compute; reflexivity | ].
  destruct (Hnext (host [] [] [] 5000 FetchRejects) (module_loaded (store w')))
    as (v' & Hrun' & Hr & _);
    [ reflexivity | reflexivity | reflexivity | vm_compute; discriminate | ].
  exists w', v'. split; [exact Hrun |]. split; [exact Hrun' | exact Hr].
Defined.



Lemma unreadable_timestamp_never_expires_witness :
  ∃ w', getAllAds (host [] [] [] 9999999999 FetchRejects)
                  (module_loaded (<[CACHE_TIMESTAMP_KEY := "yesterday"]> store_with_entry))
          = (Fulfilled [transformService (module_loaded ∅) web_design], w') ∧
        requests w' = [].
Proof.
  destruct (unreadable_timestamp_never_expires
              (host [] [] [] 9999999999 FetchRejects)
              (module_loaded (<[CACHE_TIMESTAMP_KEY := "yesterday"]> store_with_entry))
              [transformService (module_loaded ∅) web_design] "yesterday")
    as (w' & Hrun & Hr & _);
    [ reflexivity | reflexivity | vm_compute; reflexivity | vm_compute; reflexivity
    | discriminate | reflexivity | ].
  exists w'. split; [exact Hrun | exact Hr].
Defined.

Lemma missing_timestamp_is_stale_witness :
  ∃ w', getAllAds (host [] [] [] 1001 FetchRejects)
                  (module_loaded (delete CACHE_TIMESTAMP_KEY store_with_entry))
          = (Fulfilled [transformService (module_loaded ∅) web_design], w') ∧
        requests w' = [DEFAULT_API_URL].
Proof.
  destruct (missing_timestamp_is_stale
              (host [] [] [] 1001 FetchRejects)
              (module_loaded (delete CACHE_TIMESTAMP_KEY store_with_entry))
              [transformService (module_loaded ∅) web_design])
    as (w' & Hrun & Hr & _).
  - reflexivity.
  - vm_compute. reflexivity.
  - right. left. vm_compute. reflexivity.
  - exists w'. split; [exact Hrun | exact Hr].
Defined.

Lemma stale_calls_each_send_a_request_witness :
  ∃ w' w'',
    getAllAds (host [] [] [] 3601001 FetchRejects) (module_loaded store_with_entry)
      = (Fulfilled [transformService (module_loaded ∅) web_design], w') ∧
    getAllAds (host [] [] [] 3601002 server_error) w'
      = (Fulfilled [transformService (module_loaded ∅) web_design], w'') ∧
    requests w'' = [DEFAULT_API_URL; DEFAULT_API_URL] ∧
    pending w'' = [BackgroundRefresh FetchRejects; BackgroundRefresh server_error].
Proof.
  apply (stale_calls_each_send_a_request
           (host [] [] [] 3601001 FetchRejects) (host [] [] [] 3601002 server_error)
           (module_loaded store_with_entry)).
  - reflexivity.
  - reflexivity.
  - vm_compute. reflexivity.
  - intros n. vm_compute. reflexivity.
Defined.

Lemma refused_write_keeps_cache_cold_witness :
  ∃ w', getAllAds (host [] [CACHE_KEY] [] 1000 (answer_with (Some [web_design])))
                  (module_loaded ∅)
          = (Fulfilled [transformService (module_loaded ∅) web_design], w') ∧
        store w' = ∅.
Proof.
  destruct (refused_write_keeps_cache_cold
              (host [] [CACHE_KEY] [] 1000 (answer_with (Some [web_design])))
              (module_loaded ∅) web_design [])
    as (w' & Hrun & Hs & _); [ reflexivity | reflexivity | reflexivity | ].
  exists w'. split; [exact Hrun | exact Hs].
Defined.

Lemma setCachedAds_can_write_half_witness :
  ∃ w', setCachedAds [] (host [] [CACHE_TIMESTAMP_KEY] [] 5000 FetchRejects)
                     (module_loaded store_with_entry)
          = (Fulfilled tt, w') ∧
        store w' !! CACHE_KEY = Some "[]" ∧
        store w' !! CACHE_TIMESTAMP_KEY = Some "1000".
Proof.
  destruct (setCachedAds_can_write_half []
              (host [] [CACHE_TIMESTAMP_KEY] [] 5000 FetchRejects)
              (module_loaded store_with_entry))
    as (w' & Hrun & Hk & Ht); [ reflexivity | reflexivity | ].
  exists w'. split; [exact Hrun |]. split; [exact Hk |].
  rewrite Ht. vm_compute. reflexivity.
Defined.

Lemma operations_keep_to_their_keys_witness :
  store (snd (clearAdsCache (host [] [] [] 1000 FetchRejects)
                (module_loaded (<["app_settings" := "dark"]> store_with_entry))))
    !! "app_settings"
  = Some "dark".
Proof.
  destruct (operations_keep_to_their_keys
              (host [] [] [] 1000 FetchRejects)
              (module_loaded (<["app_settings" := "dark"]> store_with_entry))
              "app_settings")
    as (_ & _ & Hclear & _); [discriminate | discriminate |].
  rewrite Hclear. reflexivity.
Defined.

Lemma initializeAdsSDK_without_values_witness :
  initializeAdsSDK (Some {| apiUrl := Some ""; intakeBaseUrl := None;
                            cacheDuration := None |})
                   (module_loaded store_with_entry)
  = module_loaded store_with_entry.
Proof.
  apply (initializeAdsSDK_without_values
           (Some {| apiUrl := Some ""; intakeBaseUrl := None; cacheDuration := None |})).
  - intros url [= <-]. reflexivity.
  - intros url [=].
  - reflexivity.
Defined.

Lemma initializeAdsSDK_cache_duration_witness :
  CACHE_DURATION
    (initializeAdsSDK (Some {| apiUrl := None; intakeBaseUrl := None;
                               cacheDuration := Some (-5) |})
                      (module_loaded ∅))
    = DEFAULT_CACHE_DURATION ∧
  CACHE_DURATION
    (initializeAdsSDK (Some {| apiUrl := None; intakeBaseUrl := None;
                               cacheDuration := Some 0 |})
                      (module_loaded ∅))
    = 0.
Proof.
  split.
  - destruct (initializeAdsSDK_cache_duration
                (Some {| apiUrl := None; intakeBaseUrl := None;
                         cacheDuration := Some (-5) |})
                (module_loaded ∅) (-5) eq_refl) as [Hneg _].
    destruct Hneg as [Hkept _]; [lia | exact Hkept].
  - destruct (initializeAdsSDK_cache_duration
                (Some {| apiUrl := None; intakeBaseUrl := None;
                         cacheDuration := Some 0 |})
                (module_loaded ∅) 0 eq_refl) as [_ Hpos].
    apply Hpos. lia.
Defined.

Lemma initializeAdsSDK_warns_but_sets_witness :
  API_URL (initializeAdsSDK (Some {| apiUrl := Some "example.com/api/";
                                     intakeBaseUrl := None;
                                     cacheDuration := None |})
                            (module_loaded ∅))
    = "example.com/api".
Proof.
  destruct (initializeAdsSDK_warns_but_sets
              (Some {| apiUrl := Some "example.com/api/"; intakeBaseUrl := None;
                       cacheDuration := None |})
              (module_loaded ∅) "example.com/api/")
    as [Hset _]; [ reflexivity | discriminate | reflexivity | reflexivity | ].
  exact Hset.
Defined.

Lemma trailing_slash_is_dropped_before_composition_witness :
  Ad.ctaUrl (transformService (initializeAdsSDK custom_intake (module_loaded ∅)) web_design)
    = "https://example.com/services/web-design".
Proof.
  destruct (trailing_slash_is_dropped_before_composition
              custom_intake (module_loaded ∅) "https://example.com" web_design)
    as [_ Hurl]; [ reflexivity | ].
  exact Hurl.
Defined.

Lemma timestamp_reads_back_witness :
  parseInt (Number_toString 1700000000000) = Some 1700000000000.
Proof. exact (proj1 (timestamp_reads_back 1700000000000)). Defined.

Lemma getAdById_first_match_witness :
  typed_cache (host [] [] [] 1000 FetchRejects) (module_loaded ∅) ∧
  ∃ found w',
    getAdById "no-such-ad" (host [] [] [] 1000 FetchRejects) (module_loaded ∅)
      = (Fulfilled found, w') ∧
    match found with
    | Some ad =>
        Ad.id ad = "no-such-ad" ∧
        ∃ before after,
          best_known (host [] [] [] 1000 FetchRejects) (module_loaded ∅)
            = (before ++ ad :: after)%list ∧
          ∀ other, other ∈ before → Ad.id other ≠ "no-such-ad"
    | None =>
        ∀ other, other ∈ best_known (host [] [] [] 1000 FetchRejects) (module_loaded ∅) →
                 Ad.id other ≠ "no-such-ad"
    end.
Proof.
  assert (typed_cache (host [] [] [] 1000 FetchRejects) (module_loaded ∅)) as Htyped
    by (right; left; reflexivity).
  split; [exact Htyped |].
  exact (getAdById_first_match "no-such-ad"
           (host [] [] [] 1000 FetchRejects) (module_loaded ∅) Htyped).
Defined.

Lemma getRandomAd_picks_from_the_list_witness :
  ∃ picked w',
    getRandomAd (1 # 2) (host [] [] [] 1000 FetchRejects) (module_loaded ∅)
      = (Fulfilled picked, w') ∧
    ∃ ad, picked = Some ad ∧ ad ∈ fallbackAds.
Proof.
  destruct (getRandomAd_picks_from_the_list (1 # 2)
              (host [] [] [] 1000 FetchRejects) (module_loaded ∅))
    as (picked & w' & Hrun & Hpick); [ discriminate | reflexivity | ].
  exists picked, w'. split; [exact Hrun | exact Hpick].
Defined.

Lemma empty_result_only_from_cache_witness :
  fst (getRandomAd (1 # 2) (host [] [] [] 1000 FetchRejects)
         (module_loaded (<[CACHE_KEY := "[]"]> ∅)))
    = Fulfilled None.
Proof.
  destruct (empty_result_only_from_cache (1 # 2)
              (host [] [] [] 1000 FetchRejects)
              (module_loaded (<[CACHE_KEY := "[]"]> ∅)))
    as [_ Hnone].
  apply Hnone. vm_compute. reflexivity.
Defined.

Lemma error_status_discards_the_payload_witness :
  fst (refreshAds
         (host [] [] [] 1000
            (FetchResponds
               {| status := 404;
                  body := JsonBody {| version := "1.0.0";
                                      generatedAt := "2026-02-02T12:00:00Z";
                                      services := Some [web_design] |} |}))
         (module_loaded ∅))
    = Rejected (ApiError 404).
Proof.
  destruct (error_status_discards_the_payload
              (host [] [] [] 1000
                 (FetchResponds
                    {| status := 404;
                       body := JsonBody {| version := "1.0.0";
                                           generatedAt := "2026-02-02T12:00:00Z";
                                           services := Some [web_design] |} |}))
              (module_loaded ∅) _ eq_refl eq_refl)
    as (Hrej & _).
  exact Hrej.
Defined.

Lemma loadAd_is_lookup_then_random_witness :
  loadAd (Some "") (1 # 2) (host [] [] [] 1000 FetchRejects) (module_loaded ∅)
    = getRandomAd (1 # 2) (host [] [] [] 1000 FetchRejects) (module_loaded ∅).
Proof.
  destruct (loadAd_is_lookup_then_random (Some "") (1 # 2)
              (host [] [] [] 1000 FetchRejects) (module_loaded ∅))
    as (_ & Hrandom & _); [right; left; reflexivity |].
  apply Hrandom. right. reflexivity.
Defined.

Lemma unknown_id_costs_two_requests_witness :
  ∃ ad w',
    loadAd (Some "web-design") (1 # 2) (host [] [] [] 1000 FetchRejects) (module_loaded ∅)
      = (Fulfilled (Some ad), w') ∧
    ad ∈ fallbackAds ∧
    requests w' = [DEFAULT_API_URL; DEFAULT_API_URL].
Proof.
  apply (unknown_id_costs_two_requests "web-design" (1 # 2)
           (host [] [] [] 1000 FetchRejects) (module_loaded ∅) NetworkError).
  - discriminate.
  - reflexivity.
  - discriminate.
  - intros ad Had Hid. unfold fallbackAds in Had.
    repeat (apply elem_of_cons in Had as [-> | Had]; [discriminate Hid |]).
    inversion Had.
  - reflexivity.
  - reflexivity.
Defined.
